(** * analytics-pipeline: notification counters and analytics query surface

    A shallow embedding of the service's entry point (the MQTT message
    handler with its payload validators, and the three Express handlers
    with the date validator) together with the pieces of the JavaScript
    runtime it leans on: UTF-8 decoding of a [Buffer], [JSON.parse], the
    regular expression of the date format, and the ISO date arithmetic
    behind [Date].

    Conventions.
    - A JavaScript string is the list of its UTF-16 code units
      ([jsstring]); [lit "LOW"] is the string literal ['LOW'].
    - A computation that may raise is a [completion]: [Normal v] or
      [Throw e].  An uncaught [Throw] in the message handler would end
      the process, in an Express handler it would become a 500 response.
    - Objects decoded from JSON and from a query string are finite maps
      ([gmap]) from property names to values; reading a property that is
      not there gives [None], the model of [undefined]. *)

From Stdlib Require Import ZArith NArith Lia.
From Stdlib Require Import Strings.Byte.
From stdpp Require Import base tactics decidable option list relations strings gmap.

Open Scope N_scope.

(** ** JavaScript strings *)

Abbreviation jsstring := (list N).

Definition lit (s : string) : jsstring :=
  map Ascii.N_of_ascii (String.list_ascii_of_string s).

(** [a === b] on two strings. *)
Definition str_eq (a b : jsstring) : bool := bool_decide (a = b).

(** [s.slice(0, n)] for [0 <= n]. *)
Definition slice0 (n : nat) (s : jsstring) : jsstring := take n s.

(** ** Completions *)

Inductive JsError := SyntaxError | RangeError.

Inductive completion (A : Type) :=
| Normal (a : A)
| Throw (e : JsError).
Arguments Normal {A} a.
Arguments Throw {A} e.

#[global] Instance completion_ret : MRet completion := fun A a => Normal a.

#[global] Instance completion_bind : MBind completion := fun A B k c =>
  match c with
  | Normal a => k a
  | Throw e => Throw e
  end.

(** [try { body } catch { handler }] *)
Definition try_catch {A} (body : completion A) (handler : JsError -> completion A)
  : completion A :=
  match body with
  | Normal a => Normal a
  | Throw e => handler e
  end.

(** ** Values decoded from JSON

    A number is carried by its source text: the service never computes
    with a number taken from a payload, it only asks for its [typeof]. *)

Unset Elimination Schemes.
Inductive Json :=
| JNull
| JBool (b : bool)
| JNum (text : jsstring)
| JStr (s : jsstring)
| JArr (items : list Json)
| JObj (props : gmap (list N) Json).
Set Elimination Schemes.

Inductive JsType := TUndefined | TObject | TBoolean | TNumber | TString.

(** [typeof v] of a value read from a property; [None] is [undefined].
    [typeof null] is ['object']. *)
Definition typeof (v : option Json) : JsType :=
  match v with
  | None => TUndefined
  | Some JNull => TObject
  | Some (JBool _) => TBoolean
  | Some (JNum _) => TNumber
  | Some (JStr _) => TString
  | Some (JArr _) => TObject
  | Some (JObj _) => TObject
  end.

(** [v[name]] for a value produced by [JSON.parse] and one of the eight
    property names the validators destructure.  None of them is the name
    of an array index, of [length], or of a member of [Object.prototype]
    or [Array.prototype], so on an array the read gives [undefined]. *)
Definition get (v : Json) (name : jsstring) : option Json :=
  match v with
  | JObj props => props !! name
  | _ => None
  end.

(** ** [Buffer.prototype.toString('utf-8')]

    The decoder never raises: every ill-formed sequence becomes U+FFFD
    and the offending byte is looked at again as the start of a new
    sequence. *)
Module Utf8.

Record State := mkState { need : nat; acc : N; lo : N; hi : N }.

Definition start : State := mkState 0 0 128 191.

Definition in_range (a b x : N) : bool := (a <=? x) && (x <=? b).

(** A byte met while no sequence is open. *)
Definition lead (b : N) : list N * State :=
  if b <=? 127 then ([b], start)
  else if in_range 194 223 b then ([], mkState 1 (N.land b 31) 128 191)
  else if in_range 224 239 b then
    ([], mkState 2 (N.land b 15)
           (if b =? 224 then 160 else 128) (if b =? 237 then 159 else 191))
  else if in_range 240 244 b then
    ([], mkState 3 (N.land b 7)
           (if b =? 240 then 144 else 128) (if b =? 244 then 143 else 191))
  else ([65533], start).

Definition feed (st : State) (b : N) : list N * State :=
  match need st with
  | O => lead b
  | S k =>
      if in_range (lo st) (hi st) b then
        let cp := N.lor (N.shiftl (acc st) 6) (N.land b 63) in
        match k with
        | O => ([cp], start)
        | S _ => ([], mkState k cp 128 191)
        end
      else
        let '(out, st') := lead b in (65533 :: out, st')
  end.

Fixpoint decode (st : State) (bytes : list N) : list N :=
  match bytes with
  | [] => match need st with O => [] | S _ => [65533] end
  | b :: rest => let '(out, st') := feed st b in out ++ decode st' rest
  end.

(** One code point as UTF-16. *)
Definition units (cp : N) : list N :=
  if cp <? 65536 then [cp]
  else let v := cp - 65536 in
       [55296 + N.shiftr v 10; 56320 + N.land v 1023].

Definition toString (buffer : list byte) : jsstring :=
  concat (map units (decode start (map Byte.to_N buffer))).

End Utf8.

(** ** [JSON.parse]

    The grammar of ECMA-404 read one code unit at a time by a pushdown
    machine: [Lex] is the token being read, [Expect] what the grammar
    allows next, the stack holds the arrays and objects still open.  A
    repeated property name overwrites the earlier one. *)
Module JSON.

Inductive NumState :=
| NMinus | NZero | NInt | NDot | NFrac | NExp | NExpSign | NExpDigits.

Inductive Lex :=
| LIdle
| LStr (acc : jsstring)
| LEsc (acc : jsstring)
| LHex (acc : jsstring) (todo : nat) (v : N)
| LNum (st : NumState) (acc : jsstring)
| LLit (rest : jsstring) (v : Json).

Inductive Expect :=
| EValue
| EValueOrEnd
| EKeyOrEnd
| EKey
| EColon
| EAfter
| EDone (v : Json).

Inductive Frame :=
| FArr (items : list Json)
| FObj (props : gmap (list N) Json)
| FObjK (props : gmap (list N) Json) (key : jsstring).

Record PState := mkP { lex : Lex; expect : Expect; stack : list Frame }.

Definition is_ws (c : N) : bool :=
  (c =? 32) || (c =? 9) || (c =? 10) || (c =? 13).

Definition is_digit (c : N) : bool := (48 <=? c) && (c <=? 57).

Definition hex_val (c : N) : option N :=
  if is_digit c then Some (c - 48)
  else if (97 <=? c) && (c <=? 102) then Some (c - 87)
  else if (65 <=? c) && (c <=? 70) then Some (c - 55)
  else None.

Definition is_e (c : N) : bool := (c =? 101) || (c =? 69).

Definition num_step (st : NumState) (c : N) : option NumState :=
  match st with
  | NMinus => if c =? 48 then Some NZero
              else if is_digit c then Some NInt else None
  | NZero => if c =? 46 then Some NDot
             else if is_e c then Some NExp else None
  | NInt => if is_digit c then Some NInt
            else if c =? 46 then Some NDot
            else if is_e c then Some NExp else None
  | NDot => if is_digit c then Some NFrac else None
  | NFrac => if is_digit c then Some NFrac
             else if is_e c then Some NExp else None
  | NExp => if (c =? 43) || (c =? 45) then Some NExpSign
            else if is_digit c then Some NExpDigits else None
  | NExpSign => if is_digit c then Some NExpDigits else None
  | NExpDigits => if is_digit c then Some NExpDigits else None
  end.

Definition num_done (st : NumState) : bool :=
  match st with
  | NZero | NInt | NFrac | NExpDigits => true
  | _ => false
  end.

Definition value_ok (e : Expect) : bool :=
  match e with EValue | EValueOrEnd => true | _ => false end.

Definition key_ok (e : Expect) : bool :=
  match e with EKey | EKeyOrEnd => true | _ => false end.

(** A value is complete: hand it to the innermost open container. *)
Definition deliver (v : Json) (stk : list Frame) : option PState :=
  match stk with
  | [] => Some (mkP LIdle (EDone v) [])
  | FArr items :: up => Some (mkP LIdle EAfter (FArr (items ++ [v]) :: up))
  | FObjK props key :: up => Some (mkP LIdle EAfter (FObj (<[key := v]> props) :: up))
  | FObj _ :: _ => None
  end.

(** A string literal is complete: a value, or a property name. *)
Definition close_string (s : jsstring) (e : Expect) (stk : list Frame)
  : option PState :=
  if value_ok e then deliver (JStr s) stk
  else if key_ok e then
    match stk with
    | FObj props :: up => Some (mkP LIdle EColon (FObjK props s :: up))
    | _ => None
    end
  else None.

Definition escape (c : N) : option N :=
  if c =? 34 then Some 34        (* quote *)
  else if c =? 92 then Some 92   (* backslash *)
  else if c =? 47 then Some 47   (* \/ *)
  else if c =? 98 then Some 8    (* \b *)
  else if c =? 102 then Some 12  (* \f *)
  else if c =? 110 then Some 10  (* \n *)
  else if c =? 114 then Some 13  (* \r *)
  else if c =? 116 then Some 9   (* \t *)
  else None.

(** A code unit met between two tokens. *)
Definition idle (e : Expect) (stk : list Frame) (c : N) : option PState :=
  if is_ws c then Some (mkP LIdle e stk)
  else if c =? 34 then                                   (* quote *)
    if value_ok e || key_ok e then Some (mkP (LStr []) e stk) else None
  else if c =? 123 then                                  (* { *)
    if value_ok e then Some (mkP LIdle EKeyOrEnd (FObj ∅ :: stk)) else None
  else if c =? 91 then                                   (* [ *)
    if value_ok e then Some (mkP LIdle EValueOrEnd (FArr [] :: stk)) else None
  else if c =? 93 then                                   (* ] *)
    match e, stk with
    | EValueOrEnd, FArr items :: up => deliver (JArr items) up
    | EAfter, FArr items :: up => deliver (JArr items) up
    | _, _ => None
    end
  else if c =? 125 then                                  (* } *)
    match e, stk with
    | EKeyOrEnd, FObj props :: up => deliver (JObj props) up
    | EAfter, FObj props :: up => deliver (JObj props) up
    | _, _ => None
    end
  else if c =? 44 then                                   (* , *)
    match e, stk with
    | EAfter, FArr _ :: _ => Some (mkP LIdle EValue stk)
    | EAfter, FObj _ :: _ => Some (mkP LIdle EKey stk)
    | _, _ => None
    end
  else if c =? 58 then                                   (* : *)
    match e with
    | EColon => Some (mkP LIdle EValue stk)
    | _ => None
    end
  else if negb (value_ok e) then None
  else if c =? 45 then Some (mkP (LNum NMinus [c]) e stk)     (* - *)
  else if c =? 48 then Some (mkP (LNum NZero [c]) e stk)
  else if is_digit c then Some (mkP (LNum NInt [c]) e stk)
  else if c =? 116 then Some (mkP (LLit (lit "rue") (JBool true)) e stk)
  else if c =? 102 then Some (mkP (LLit (lit "alse") (JBool false)) e stk)
  else if c =? 110 then Some (mkP (LLit (lit "ull") JNull) e stk)
  else None.

Definition step (st : PState) (c : N) : option PState :=
  let e := expect st in
  let stk := stack st in
  match lex st with
  | LIdle => idle e stk c
  | LStr acc =>
      if c =? 34 then close_string acc e stk
      else if c =? 92 then Some (mkP (LEsc acc) e stk)
      else if c <? 32 then None
      else Some (mkP (LStr (acc ++ [c])) e stk)
  | LEsc acc =>
      if c =? 117 then Some (mkP (LHex acc 4 0) e stk)       (* \u *)
      else match escape c with
           | Some u => Some (mkP (LStr (acc ++ [u])) e stk)
           | None => None
           end
  | LHex acc todo v =>
      match hex_val c with
      | None => None
      | Some h =>
          let v' := 16 * v + h in
          match todo with
          | S (S k) => Some (mkP (LHex acc (S k) v') e stk)
          | _ => Some (mkP (LStr (acc ++ [v'])) e stk)
          end
      end
  | LNum ns acc =>
      match num_step ns c with
      | Some ns' => Some (mkP (LNum ns' (acc ++ [c])) e stk)
      | None =>
          if num_done ns then
            match deliver (JNum acc) stk with
            | Some st' => idle (expect st') (stack st') c
            | None => None
            end
          else None
      end
  | LLit rest v =>
      match rest with
      | [] => None
      | x :: rest' =>
          if c =? x then
            match rest' with
            | [] => deliver v stk
            | _ => Some (mkP (LLit rest' v) e stk)
            end
          else None
      end
  end.

Fixpoint run (st : PState) (text : jsstring) : option PState :=
  match text with
  | [] => Some st
  | c :: rest =>
      match step st c with
      | Some st' => run st' rest
      | None => None
      end
  end.

(** The end of the text: a number still being read ends here. *)
Definition finish (st : PState) : option Json :=
  let closed :=
    match lex st with
    | LIdle => Some st
    | LNum ns acc => if num_done ns then deliver (JNum acc) (stack st) else None
    | _ => None
    end in
  match closed with
  | Some (mkP LIdle (EDone v) []) => Some v
  | _ => None
  end.

Definition parse (text : jsstring) : completion Json :=
  match run (mkP LIdle EValue []) text with
  | Some st =>
      match finish st with
      | Some v => Normal v
      | None => Throw SyntaxError
      end
  | None => Throw SyntaxError
  end.

End JSON.

(** ** Regular expressions

    The fragment the service uses, matched by derivatives.  [test]
    models [RegExp.prototype.test] for a pattern written between [^] and
    [$] with no flags: the whole string has to match, and [\d] is an
    ASCII digit. *)
Module Regex.

Inductive regex :=
| Zero
| One
| Sym (c : N)
| Digit
| Seq (r1 r2 : regex)
| Alt (r1 r2 : regex).

(** [r{n}] *)
Fixpoint Repeat (n : nat) (r : regex) : regex :=
  match n with
  | O => One
  | S k => Seq r (Repeat k r)
  end.

Definition is_digit (c : N) : bool := (48 <=? c) && (c <=? 57).

Fixpoint nullable (r : regex) : bool :=
  match r with
  | Zero => false
  | One => true
  | Sym _ => false
  | Digit => false
  | Seq r1 r2 => nullable r1 && nullable r2
  | Alt r1 r2 => nullable r1 || nullable r2
  end.

Fixpoint deriv (c : N) (r : regex) : regex :=
  match r with
  | Zero => Zero
  | One => Zero
  | Sym x => if c =? x then One else Zero
  | Digit => if is_digit c then One else Zero
  | Seq r1 r2 =>
      if nullable r1 then Alt (Seq (deriv c r1) r2) (deriv c r2)
      else Seq (deriv c r1) r2
  | Alt r1 r2 => Alt (deriv c r1) (deriv c r2)
  end.

Fixpoint test (r : regex) (s : jsstring) : bool :=
  match s with
  | [] => nullable r
  | c :: rest => test (deriv c r) rest
  end.

(** The language of a pattern. *)
Inductive matches : regex -> jsstring -> Prop :=
| m_one : matches One []
| m_sym c : matches (Sym c) [c]
| m_digit c : is_digit c = true -> matches Digit [c]
| m_seq r1 r2 s1 s2 : matches r1 s1 -> matches r2 s2 -> matches (Seq r1 r2) (s1 ++ s2)
| m_alt_l r1 r2 s : matches r1 s -> matches (Alt r1 r2) s
| m_alt_r r1 r2 s : matches r2 s -> matches (Alt r1 r2) s.

End Regex.

(** ** [Date]

    Time values are milliseconds since 1970-01-01T00:00:00Z; [None] is
    the time value [NaN] of an invalid date.  The day arithmetic is that
    of ECMA-262, section "Date Objects". *)
Module JsDate.

Local Open Scope Z_scope.

Definition msPerDay : Z := 86400000.
Definition msPerHour : Z := 3600000.
Definition msPerMinute : Z := 60000.
Definition msPerSecond : Z := 1000.

Definition DayFromYear (y : Z) : Z :=
  365 * (y - 1970) + (y - 1969) / 4 - (y - 1901) / 100 + (y - 1601) / 400.

Definition InLeapYear (y : Z) : bool :=
  (y mod 4 =? 0) && (negb (y mod 100 =? 0) || (y mod 400 =? 0)).

(** Days of the year before the first of month [m], [m] from 0. *)
Definition DaysBeforeMonth (leap : bool) (m : Z) : Z :=
  let l := if leap then 1 else 0 in
  if m =? 0 then 0
  else if m =? 1 then 31
  else if m =? 2 then 59 + l
  else if m =? 3 then 90 + l
  else if m =? 4 then 120 + l
  else if m =? 5 then 151 + l
  else if m =? 6 then 181 + l
  else if m =? 7 then 212 + l
  else if m =? 8 then 243 + l
  else if m =? 9 then 273 + l
  else if m =? 10 then 304 + l
  else 334 + l.

(** [MakeDay(year, month, date)], [month] from 0; a [date] past the end
    of the month runs on into the next one. *)
Definition MakeDay (year month date : Z) : Z :=
  let ym := year + month / 12 in
  let mn := month mod 12 in
  DayFromYear ym + DaysBeforeMonth (InLeapYear ym) mn + date - 1.

Definition MakeTime (h m s ms : Z) : Z :=
  h * msPerHour + m * msPerMinute + s * msPerSecond + ms.

Definition MakeDate (day time : Z) : Z := day * msPerDay + time.

Definition TimeClip (t : Z) : option Z :=
  if Z.abs t <=? 8640000000000000 then Some t else None.

Definition Day (t : Z) : Z := t / msPerDay.

(** Year, month (from 1) and day of the month of a day number, by
    400-year eras counted from the first of March. *)
Definition civil (day : Z) : Z * Z * Z :=
  let z := day + 719468 in
  let era := z / 146097 in
  let doe := z mod 146097 in
  let yoe := (doe - doe / 1460 + doe / 36524 - doe / 146096) / 365 in
  let doy := doe - (365 * yoe + yoe / 4 - yoe / 100) in
  let mp := (5 * doy + 2) / 153 in
  let d := doy - (153 * mp + 2) / 5 + 1 in
  let m := if mp <? 10 then mp + 3 else mp - 9 in
  let y := yoe + era * 400 + (if m <=? 2 then 1 else 0) in
  (y, m, d).

Definition YearFromTime (t : Z) : Z := fst (fst (civil (Day t))).
Definition MonthFromTime (t : Z) : Z := snd (fst (civil (Day t))) - 1.
Definition DateFromTime (t : Z) : Z := snd (civil (Day t)).
Definition HourFromTime (t : Z) : Z := (t / msPerHour) mod 24.
Definition MinFromTime (t : Z) : Z := (t / msPerMinute) mod 60.
Definition SecFromTime (t : Z) : Z := (t / msPerSecond) mod 60.
Definition msFromTime (t : Z) : Z := t mod msPerSecond.

(** The character of a decimal digit. *)
Definition digit_char (k : Z) : N := Z.to_N (48 + k).

(** [n] in decimal on [width] digits. *)
Fixpoint pad (width : nat) (n : Z) : jsstring :=
  match width with
  | O => []
  | S w => pad w (n / 10) ++ [digit_char (n mod 10)]
  end.

Definition digit_val (c : N) : option Z :=
  if Regex.is_digit c then Some (Z.of_N c - 48) else None.

Definition num2 (a b : N) : option Z :=
  x ← digit_val a; y ← digit_val b; Some (10 * x + y).

Definition num3 (a b c : N) : option Z :=
  x ← digit_val a; y ← num2 b c; Some (100 * x + y).

Definition num4 (a b c d : N) : option Z :=
  x ← num2 a b; y ← num2 c d; Some (100 * x + y).

Definition between (a b x : Z) : bool := (a <=? x) && (x <=? b).

(** [Date.parse] on the date-time form [YYYY-MM-DDTHH:mm:ss.sssZ], the
    only form the service hands to the [Date] constructor.  As in V8,
    a month outside 1..12 or a day outside 1..31 gives [NaN], and a
    day from 29 to 31 is taken as it is, whatever the month. *)
Definition parse (s : jsstring) : option Z :=
  match s with
  | [y1; y2; y3; y4; 45; m1; m2; 45; d1; d2; 84;
     h1; h2; 58; i1; i2; 58; s1; s2; 46; f1; f2; f3; 90]%N =>
      year ← num4 y1 y2 y3 y4;
      month ← num2 m1 m2;
      day ← num2 d1 d2;
      hour ← num2 h1 h2;
      minute ← num2 i1 i2;
      second ← num2 s1 s2;
      ms ← num3 f1 f2 f3;
      if between 1 12 month && between 1 31 day && between 0 24 hour
         && between 0 59 minute && between 0 59 second
         && (negb (hour =? 24) || ((minute =? 0) && (second =? 0) && (ms =? 0)))
      then TimeClip (MakeDate (MakeDay year (month - 1) day)
                              (MakeTime hour minute second ms))
      else None
  | _ => None
  end.

(** [new Date(s)] for a string [s]: the object holds the time value. *)
Definition construct (s : jsstring) : option Z := parse s.

Definition getTime (d : option Z) : option Z := d.

Definition isNaN (t : option Z) : bool :=
  match t with None => true | Some _ => false end.

Definition year_text (y : Z) : jsstring :=
  if between 0 9999 y then pad 4 y
  else (if y <? 0 then 45%N else 43%N) :: pad 6 (Z.abs y).

(** [toISOString] raises a [RangeError] on an invalid date. *)
Definition toISOString (d : option Z) : completion jsstring :=
  match d with
  | None => Throw RangeError
  | Some t =>
      Normal (year_text (YearFromTime t) ++ [45%N] ++
              pad 2 (MonthFromTime t + 1) ++ [45%N] ++
              pad 2 (DateFromTime t) ++ [84%N] ++
              pad 2 (HourFromTime t) ++ [58%N] ++
              pad 2 (MinFromTime t) ++ [58%N] ++
              pad 2 (SecFromTime t) ++ [46%N] ++
              pad 3 (msFromTime t) ++ [90%N])
  end.

End JsDate.

(** ** The service: types (types.ts) *)

Record UserNotificationEvent := mkUserNotificationEvent {
  un_notificationId : jsstring;
  un_requestId : jsstring;
  un_title : jsstring;
  un_body : jsstring;
  un_priority : jsstring
}.

Record NotificationDeliveryAckEvent := mkNotificationDeliveryAckEvent {
  ack_requestId : jsstring;
  ack_notificationId : jsstring;
  ack_acknowledgedAt : jsstring;
  ack_status : jsstring;
  ack_failureReason : option jsstring
}.

(** The counters are JavaScript numbers that only ever hold 0, 1, 2,
    ...; they are taken as integers.  A number holds every integer up
    to 2^53 exactly, so this is what the service computes for as long
    as a counter has taken fewer than 2^53 steps. *)
Record NotificationStats := mkNotificationStats {
  received : Z;
  ackDelivered : Z;
  ackFailed : Z
}.

(** ** The service: configuration and state (index.ts) *)

(** [process.env.NAME || fallback]: an unset and an empty variable both
    give the fallback. *)
Definition env_or (value : option jsstring) (fallback : jsstring) : jsstring :=
  match value with
  | Some (c :: rest) => c :: rest
  | _ => fallback
  end.

Record Config := mkConfig {
  userNotificationTopic : jsstring;
  notificationAckTopic : jsstring
}.

Definition config_of_env (env : gmap (list N) (list N)) : Config :=
  {| userNotificationTopic :=
       env_or (env !! lit "NOTIFICATION_USER_TOPIC") (lit "notification/user");
     notificationAckTopic :=
       env_or (env !! lit "NOTIFICATION_ACK_TOPIC") (lit "notification/ack") |}.

Definition trendIntervals : gset (list N) :=
  {[ lit "DAY"; lit "WEEK"; lit "MONTH" ]}.

Definition notificationStats : NotificationStats :=
  {| received := 0; ackDelivered := 0; ackFailed := 0 |}.

(** ** The service: validators *)

(** [^\d{4}-\d{2}-\d{2}$] *)
Definition date_pattern : Regex.regex :=
  Regex.Seq (Regex.Repeat 4 Regex.Digit)
    (Regex.Seq (Regex.Sym 45)
       (Regex.Seq (Regex.Repeat 2 Regex.Digit)
          (Regex.Seq (Regex.Sym 45) (Regex.Repeat 2 Regex.Digit)))).

(** The parameter is a string at every call site, so the [typeof] guard
    that opens the function never fires. *)
Definition isValidDateString (value : jsstring) : completion bool :=
  if negb (Regex.test date_pattern value) then mret false
  else
    let parsed := JsDate.construct (value ++ lit "T00:00:00.000Z") in
    if JsDate.isNaN (JsDate.getTime parsed) then mret false
    else
      iso ← JsDate.toISOString parsed;
      mret (str_eq (slice0 10 iso) value).

(** What Express hands over as [req.query]: each parameter is a string,
    an array (a parameter given more than once) or a nested object. *)
Unset Elimination Schemes.
Inductive QueryValue :=
| QString (s : jsstring)
| QArray (items : list QueryValue)
| QObject (props : gmap (list N) QueryValue).
Set Elimination Schemes.

Definition readDateQueryParam (query : gmap (list N) QueryValue) (name : jsstring)
  : completion (option jsstring) :=
  match query !! name with
  | Some (QString value) =>
      ok ← isValidDateString value;
      if negb ok then mret None else mret (Some value)
  | _ => mret None
  end.

Definition is_null (v : Json) : bool :=
  match v with JNull => true | _ => false end.

#[global] Instance JsType_eq_dec : EqDecision JsType.
Proof. solve_decision. Defined.

(** [typeof v !== t] *)
Definition not_type (v : option Json) (t : JsType) : bool :=
  negb (bool_decide (typeof v = t)).

Definition isObjectPayload (value : Json) : bool :=
  negb (not_type (Some value) TObject) && negb (is_null value).

(** [v === s] for a string literal [s]. *)
Definition is_literal (v : option Json) (s : jsstring) : bool :=
  match v with
  | Some (JStr x) => str_eq x s
  | _ => false
  end.

(** The string behind a value that has passed [typeof v === 'string']. *)
Definition the_string (v : option Json) : jsstring :=
  match v with
  | Some (JStr s) => s
  | _ => []
  end.

Definition parseUserNotification (payload : Json) : option UserNotificationEvent :=
  if negb (isObjectPayload payload) then None
  else
    let notificationId := get payload (lit "notificationId") in
    let requestId := get payload (lit "requestId") in
    let title := get payload (lit "title") in
    let body := get payload (lit "body") in
    let priority := get payload (lit "priority") in
    let validPriority :=
      is_literal priority (lit "LOW") || is_literal priority (lit "NORMAL")
      || is_literal priority (lit "HIGH") in
    if not_type notificationId TString
       || not_type requestId TString
       || not_type title TString
       || not_type body TString
       || negb validPriority
    then None
    else Some {| un_notificationId := the_string notificationId;
                 un_requestId := the_string requestId;
                 un_title := the_string title;
                 un_body := the_string body;
                 un_priority := the_string priority |}.

Definition parseDeliveryAck (payload : Json) : option NotificationDeliveryAckEvent :=
  if negb (isObjectPayload payload) then None
  else
    let requestId := get payload (lit "requestId") in
    let notificationId := get payload (lit "notificationId") in
    let acknowledgedAt := get payload (lit "acknowledgedAt") in
    let status := get payload (lit "status") in
    let failureReason := get payload (lit "failureReason") in
    let validStatus :=
      is_literal status (lit "DELIVERED") || is_literal status (lit "FAILED") in
    if not_type requestId TString
       || not_type notificationId TString
       || not_type acknowledgedAt TString
       || negb validStatus
    then None
    else if not_type failureReason TUndefined && not_type failureReason TString
    then None
    else Some {| ack_requestId := the_string requestId;
                 ack_notificationId := the_string notificationId;
                 ack_acknowledgedAt := the_string acknowledgedAt;
                 ack_status := the_string status;
                 ack_failureReason :=
                   match failureReason with
                   | Some (JStr s) => Some s
                   | _ => None
                   end |}.

(** [null] stands both for a payload that does not parse and for the
    payload that parses to [null]. *)
Definition parseJsonPayload (buffer : list byte) : completion Json :=
  try_catch (JSON.parse (Utf8.toString buffer)) (fun _ => mret JNull).

(** ** The service: the message handler

    The listener registered by [startNotificationMqttListener] for
    ['message'].  It runs to its end without yielding; what it leaves
    behind is the new value of the counters and the lines it wrote with
    [console.error]. *)

Definition log_non_json (topic : jsstring) : jsstring :=
  lit "analytics-pipeline received non-JSON MQTT payload on topic " ++ topic.

Definition log_invalid_user (topic : jsstring) : jsstring :=
  lit "analytics-pipeline received invalid UserNotification payload on " ++ topic.

Definition log_invalid_ack (topic : jsstring) : jsstring :=
  lit "analytics-pipeline received invalid NotificationDeliveryAck payload on " ++ topic.

Definition on_message (cfg : Config) (topic : jsstring) (payload : list byte)
    (stats : NotificationStats) : completion (NotificationStats * list jsstring) :=
  parsed ← parseJsonPayload payload;
  if is_null parsed then mret (stats, [log_non_json topic])
  else if str_eq topic (userNotificationTopic cfg) then
    match parseUserNotification parsed with
    | None => mret (stats, [log_invalid_user topic])
    | Some _ =>
        mret ({| received := (received stats + 1)%Z;
                 ackDelivered := ackDelivered stats;
                 ackFailed := ackFailed stats |}, [])
    end
  else if str_eq topic (notificationAckTopic cfg) then
    match parseDeliveryAck parsed with
    | None => mret (stats, [log_invalid_ack topic])
    | Some event =>
        if str_eq (ack_status event) (lit "DELIVERED") then
          mret ({| received := received stats;
                   ackDelivered := (ackDelivered stats + 1)%Z;
                   ackFailed := ackFailed stats |}, [])
        else
          mret ({| received := received stats;
                   ackDelivered := ackDelivered stats;
                   ackFailed := (ackFailed stats + 1)%Z |}, [])
    end
  else mret (stats, []).

(** ** The event loop

    Messages that have arrived wait in a queue; the loop takes one of
    them, in whatever order the transport delivered them, and runs the
    handler on it to completion before it takes the next. *)

Record Message := mkMessage { msg_topic : jsstring; msg_payload : list byte }.

Record Loop := mkLoop {
  pending : list Message;
  stats_now : NotificationStats;
  console : list jsstring
}.

Inductive dispatch (cfg : Config) : Loop -> Loop -> Prop :=
| dispatch_one before m after stats out stats' lines :
    on_message cfg (msg_topic m) (msg_payload m) stats = Normal (stats', lines) ->
    dispatch cfg (mkLoop (before ++ m :: after) stats out)
                 (mkLoop (before ++ after) stats' (out ++ lines)).

(** The handler run on a queue from its head. *)
Fixpoint run_all (cfg : Config) (queue : list Message) (stats : NotificationStats)
  : completion NotificationStats :=
  match queue with
  | [] => mret stats
  | m :: rest =>
      r ← on_message cfg (msg_topic m) (msg_payload m) stats;
      run_all cfg rest (fst r)
  end.

(** What one message adds to each counter when it is handled on its own,
    from the counters at zero. *)
Definition increment (cfg : Config) (m : Message) : Z * Z * Z :=
  match on_message cfg (msg_topic m) (msg_payload m) notificationStats with
  | Normal (s, _) => (received s, ackDelivered s, ackFailed s)
  | Throw _ => (0, 0, 0)%Z
  end.

(** ** The service: the HTTP handlers *)

Record Response := mkResponse { status : Z; json : Json }.

Definition error_body (message : jsstring) : Json :=
  JObj {[ lit "error" := JStr message ]}.

(** [a > b] on strings: code unit by code unit. *)
Fixpoint str_gt (a b : jsstring) : bool :=
  match a, b with
  | [], _ => false
  | _ :: _, [] => true
  | x :: a', y :: b' =>
      if y <? x then true
      else if x <? y then false
      else str_gt a' b'
  end.

(** [!v] for a value that is a string or [null]. *)
Definition falsy (v : option jsstring) : bool :=
  match v with
  | Some (_ :: _) => false
  | _ => true
  end.

(** The string behind a value for which [!v] is false. *)
Definition the_param (v : option jsstring) : jsstring :=
  match v with Some s => s | None => [] end.

(** [typeof req.query[name] === 'string' ? req.query[name] : ''] *)
Definition string_or_empty (query : gmap (list N) QueryValue) (name : jsstring)
  : jsstring :=
  match query !! name with
  | Some (QString s) => s
  | _ => []
  end.

Definition daily_summary_body (date : jsstring) : Json :=
  JObj (<[ lit "date" := JStr date ]>
       (<[ lit "totalOrders" := JNum (lit "125") ]>
       (<[ lit "grossRevenue" := JNum (lit "15675.5") ]>
       (<[ lit "avgOrderValue" := JNum (lit "125.4") ]> ∅)))).

(** GET /analytics/orders/daily-summary *)
Definition dailySummary (query : gmap (list N) QueryValue) : completion Response :=
  let date := string_or_empty query (lit "date") in
  ok ← isValidDateString date;
  if negb ok then
    mret (mkResponse 400 (error_body (lit "Invalid or missing date query parameter")))
  else mret (mkResponse 200 (daily_summary_body date)).

Definition trend_body (from to interval : jsstring) : Json :=
  JObj (<[ lit "from" := JStr from ]>
       (<[ lit "to" := JStr to ]>
       (<[ lit "interval" := JStr interval ]>
       (<[ lit "points" :=
             JArr [JObj (<[ lit "bucketStart" := JStr from ]>
                        (<[ lit "totalOrders" := JNum (lit "120") ]>
                        (<[ lit "grossRevenue" := JNum (lit "15400.25") ]> ∅)))] ]>
         ∅)))).

(** GET /analytics/orders/trend *)
Definition ordersTrend (query : gmap (list N) QueryValue) : completion Response :=
  from ← readDateQueryParam query (lit "from");
  to ← readDateQueryParam query (lit "to");
  let interval := string_or_empty query (lit "interval") in
  if falsy from || falsy to || negb (bool_decide (interval ∈ trendIntervals)) then
    mret (mkResponse 400 (error_body (lit "Invalid query parameters")))
  else if str_gt (the_param from) (the_param to) then
    mret (mkResponse 400 (error_body (lit "Invalid query parameters")))
  else mret (mkResponse 200 (trend_body (the_param from) (the_param to) interval)).

Definition tier_body (date : jsstring) : Json :=
  let tier name customers :=
    JObj (<[ lit "tier" := JStr (lit name) ]>
         (<[ lit "customers" := JNum (lit customers) ]> ∅)) in
  JObj (<[ lit "date" := JStr date ]>
       (<[ lit "tiers" :=
             JArr [tier "STANDARD" "950"; tier "GOLD" "320"; tier "PLATINUM" "80"] ]>
         ∅)).

(** GET /analytics/customers/tier-distribution *)
Definition tierDistribution (query : gmap (list N) QueryValue) : completion Response :=
  date ← readDateQueryParam query (lit "date");
  if falsy date then
    mret (mkResponse 400 (error_body (lit "Invalid query parameters")))
  else mret (mkResponse 200 (tier_body (the_param date))).

(** An Express handler that raises is answered with a 500. *)
Definition answered (r : completion Response) : Z :=
  match r with
  | Normal resp => status resp
  | Throw _ => 500
  end.

(** A payload written with ['] where the JSON text has its double
    quote. *)
Definition payload (s : string) : list byte :=
  map (fun b => match b with x27 => x22 | _ => b end) (String.list_byte_of_string s).

Definition qs (l : list (string * QueryValue)) : gmap (list N) QueryValue :=
  list_to_map (map (fun p => (lit (fst p), snd p)) l).

(** ** The shapes the specification asks for *)

Definition is_priority (p : jsstring) : Prop :=
  p = lit "LOW" ∨ p = lit "NORMAL" ∨ p = lit "HIGH".

Definition is_ack_status (p : jsstring) : Prop :=
  p = lit "DELIVERED" ∨ p = lit "FAILED".

(** [v] is a keyed structure that holds the five fields of [e], each a
    string, with a priority among the three literals.  Other properties
    of [v] are not looked at. *)
Definition user_shape (v : Json) (e : UserNotificationEvent) : Prop :=
  ∃ props : gmap (list N) Json,
    v = JObj props
    ∧ props !! lit "notificationId" = Some (JStr (un_notificationId e))
    ∧ props !! lit "requestId" = Some (JStr (un_requestId e))
    ∧ props !! lit "title" = Some (JStr (un_title e))
    ∧ props !! lit "body" = Some (JStr (un_body e))
    ∧ props !! lit "priority" = Some (JStr (un_priority e))
    ∧ is_priority (un_priority e).

Definition user_fields : gset (list N) :=
  {[ lit "notificationId"; lit "requestId"; lit "title"; lit "body"; lit "priority" ]}.

(** The same with exactly those five properties and no other. *)
Definition exact_user_shape (v : Json) (e : UserNotificationEvent) : Prop :=
  user_shape v e ∧ ∃ props : gmap (list N) Json, v = JObj props ∧ dom props = user_fields.

(** [v] holds the four required fields of [e], each a string, with a
    status among the two literals, and [failureReason] is either not
    there or a string. *)
Definition ack_shape (v : Json) (e : NotificationDeliveryAckEvent) : Prop :=
  ∃ props : gmap (list N) Json,
    v = JObj props
    ∧ props !! lit "requestId" = Some (JStr (ack_requestId e))
    ∧ props !! lit "notificationId" = Some (JStr (ack_notificationId e))
    ∧ props !! lit "acknowledgedAt" = Some (JStr (ack_acknowledgedAt e))
    ∧ props !! lit "status" = Some (JStr (ack_status e))
    ∧ is_ack_status (ack_status e)
    ∧ (props !! lit "failureReason" = None ∧ ack_failureReason e = None
       ∨ ∃ reason, props !! lit "failureReason" = Some (JStr reason)
                   ∧ ack_failureReason e = Some reason).

(** The payload of one message on its way through the handler: the
    bytes decode (ill-formed UTF-8 replaced) to a text that parses to
    [v]. *)
Definition decodes_to (buffer : list byte) (v : Json) : Prop :=
  JSON.parse (Utf8.toString buffer) = Normal v.

(** The handler reports a decode failure: it writes the non-JSON line
    for the topic. *)
Definition decode_failure_reported (topic : jsstring) (lines : list jsstring) : Prop :=
  log_non_json topic ∈ lines.

(** Well-formed UTF-8: the bytes that [Utf8.decode] reads without ever
    putting U+FFFD in place of one of them. *)
Fixpoint utf8_well_formed (st : Utf8.State) (bs : list N) : bool :=
  match bs with
  | [] => match Utf8.need st with O => true | S _ => false end
  | b :: rest =>
      match Utf8.need st with
      | O => ((b <=? 127) || Utf8.in_range 194 244 b)
             && utf8_well_formed (snd (Utf8.lead b)) rest
      | S _ => Utf8.in_range (Utf8.lo st) (Utf8.hi st) b
               && utf8_well_formed (snd (Utf8.feed st b)) rest
      end
  end.

(** The bytes are well-formed UTF-8 and the text they encode is
    well-formed JSON. *)
Definition well_formed_json_bytes (buffer : list byte) : Prop :=
  utf8_well_formed Utf8.start (map Byte.to_N buffer) = true
  ∧ ∃ v, JSON.parse (Utf8.toString buffer) = Normal v.

Definition add_counts (s : NotificationStats) (d : Z * Z * Z) : NotificationStats :=
  {| received := received s + fst (fst d);
     ackDelivered := ackDelivered s + snd (fst d);
     ackFailed := ackFailed s + snd d |}%Z.

(** The sum of what each message of a queue adds on its own. *)
Fixpoint sum_increments (cfg : Config) (queue : list Message) : Z * Z * Z :=
  match queue with
  | [] => (0, 0, 0)%Z
  | m :: rest =>
      let '(a, b, c) := increment cfg m in
      let '(x, y, z) := sum_increments cfg rest in
      (a + x, b + y, c + z)%Z
  end.

(** One counter never goes down from [s] to [s']. *)
Definition stats_le (s s' : NotificationStats) : Prop :=
  (received s ≤ received s' ∧ ackDelivered s ≤ ackDelivered s'
   ∧ ackFailed s ≤ ackFailed s')%Z.

Definition stats_nonneg (s : NotificationStats) : Prop :=
  (0 ≤ received s ∧ 0 ≤ ackDelivered s ∧ 0 ≤ ackFailed s)%Z.

(** A query parameter that is there, is a string, and is a valid date. *)
Definition date_param (query : gmap (list N) QueryValue) (name s : jsstring) : Prop :=
  query !! name = Some (QString s) ∧ isValidDateString s = Normal true.

(** A query parameter that is there, is a string, and names an interval. *)
Definition interval_param (query : gmap (list N) QueryValue) (s : jsstring) : Prop :=
  query !! lit "interval" = Some (QString s)
  ∧ (s = lit "DAY" ∨ s = lit "WEEK" ∨ s = lit "MONTH").

(** A query parameter that is there and is not a string. *)
Definition not_a_string (query : gmap (list N) QueryValue) (name : jsstring) : Prop :=
  ∃ q, query !! name = Some q ∧ ∀ s, q ≠ QString s.

Definition days_in_month (y m : Z) : Z :=
  if (m =? 2)%Z then (if JsDate.InLeapYear y then 29 else 28)%Z
  else if (m =? 4)%Z || (m =? 6)%Z || (m =? 9)%Z || (m =? 11)%Z then 30%Z
  else 31%Z.

Definition date_text (y m d : Z) : jsstring :=
  JsDate.pad 4 y ++ [45] ++ JsDate.pad 2 m ++ [45] ++ JsDate.pad 2 d.

(** A date of the calendar, written YYYY-MM-DD. *)
Definition calendar_date (s : jsstring) : Prop :=
  ∃ y m d : Z,
    (0 ≤ y ≤ 9999 ∧ 1 ≤ m ≤ 12 ∧ 1 ≤ d ≤ days_in_month y m)%Z ∧ s = date_text y m d.

(** The daily-summary handler of the first revision of the service
    (plain JavaScript): no validation, and today's date, read from the
    clock [now], when the parameter is not a string. *)
Definition legacyDailySummary (now : Z) (query : gmap (list N) QueryValue)
  : completion Response :=
  date ← match query !! lit "date" with
          | Some (QString s) => mret s
          | _ => iso ← JsDate.toISOString (Some now); mret (slice0 10 iso)
          end;
  mret (mkResponse 200 (daily_summary_body date)).

(** Values used as examples below. *)
Definition sample_user_fields : gmap (list N) Json :=
  <[ lit "notificationId" := JStr (lit "n-1") ]>
  (<[ lit "requestId" := JStr (lit "r-1") ]>
  (<[ lit "title" := JStr (lit "Hello") ]>
  (<[ lit "body" := JStr (lit "World") ]>
  (<[ lit "priority" := JStr (lit "HIGH") ]> ∅)))).

Definition sample_user_event : UserNotificationEvent :=
  {| un_notificationId := lit "n-1"; un_requestId := lit "r-1";
     un_title := lit "Hello"; un_body := lit "World"; un_priority := lit "HIGH" |}.

Definition sample_ack_fields (status : string) : gmap (list N) Json :=
  <[ lit "requestId" := JStr (lit "r-1") ]>
  (<[ lit "notificationId" := JStr (lit "n-1") ]>
  (<[ lit "acknowledgedAt" := JStr (lit "2023-03-15T10:00:00Z") ]>
  (<[ lit "status" := JStr (lit status) ]> ∅))).

Definition sample_ack_event (status : string) : NotificationDeliveryAckEvent :=
  {| ack_requestId := lit "r-1"; ack_notificationId := lit "n-1";
     ack_acknowledgedAt := lit "2023-03-15T10:00:00Z";
     ack_status := lit status; ack_failureReason := None |}.

Definition sample_user_text : string :=
  "{'notificationId':'n-1','requestId':'r-1','title':'Hello','body':'World','priority':'HIGH'}".

Definition sample_ack_text (status : string) : string :=
  ("{'requestId':'r-1','notificationId':'n-1','acknowledgedAt':'2023-03-15T10:00:00Z','status':'"
   ++ status ++ "'}")%string.

Definition default_config : Config := config_of_env ∅.

(** ** What the further properties speak of *)

(** The five properties that [parseDeliveryAck] reads. *)
Definition ack_fields : gset (list N) :=
  {[ lit "requestId"; lit "notificationId"; lit "acknowledgedAt"; lit "status";
     lit "failureReason" ]}.

(** The number of events counted so far. *)
Definition counted (s : NotificationStats) : Z :=
  (received s + ackDelivered s + ackFailed s)%Z.

(** A topic the client subscribes to. *)
Definition subscribed (cfg : Config) (topic : jsstring) : Prop :=
  topic = userNotificationTopic cfg ∨ topic = notificationAckTopic cfg.

(** What the loop has to account for: the events counted, the lines
    logged and the messages still waiting. *)
Definition accounted (loop : Loop) : Z :=
  (counted (stats_now loop) + Z.of_nat (length (console loop))
   + Z.of_nat (length (pending loop)))%Z.

(** The order of the calendar: by year, then month, then day. *)
Definition earlier (a b : Z * Z * Z) : Prop :=
  let '(y, m, d) := a in
  let '(y', m', d') := b in
  (y < y' ∨ (y = y' ∧ (m < m' ∨ (m = m' ∧ d < d'))))%Z.

(** The handler answers, with 200 or with 400 and a body that is the
    object [{error: message}]. *)
Definition answers_200_or_400 (r : completion Response) : Prop :=
  ∃ resp, r = Normal resp
          ∧ (status resp = 200%Z
             ∨ (status resp = 400%Z
                ∧ ∃ message, json resp = JObj {[ lit "error" := JStr message ]})).

(** * Theorems *)

(** ** The validators *)

Section Validators.

Implicit Types (v : option Json) (s : jsstring) (payload : Json).

Lemma not_type_string v :
  not_type v TString = false ↔ ∃ s, v = Some (JStr s).
Proof.
  unfold not_type. rewrite negb_false_iff, bool_decide_eq_true. split.
  - destruct v as [[]|]; simpl; try discriminate. eauto.
  - intros [s ->]. reflexivity.
Qed.

Lemma not_type_undefined v :
  not_type v TUndefined = false ↔ v = None.
Proof.
  unfold not_type. rewrite negb_false_iff, bool_decide_eq_true. split.
  - destruct v as [[]|]; simpl; try discriminate. reflexivity.
  - intros ->. reflexivity.
Qed.

Lemma is_literal_spec v s : is_literal v s = true ↔ v = Some (JStr s).
Proof.
  unfold is_literal, str_eq. split.
  - destruct v as [[]|]; try discriminate.
    intros H%bool_decide_eq_true. by subst.
  - intros ->. by apply bool_decide_eq_true.
Qed.

Lemma isObjectPayload_spec payload :
  isObjectPayload payload = true ↔
  (∃ items, payload = JArr items) ∨ (∃ props, payload = JObj props).
Proof.
  split.
  - destruct payload; try discriminate; eauto.
  - intros [[? ->]|[? ->]]; reflexivity.
Qed.

Lemma valid_priority_spec v :
  is_literal v (lit "LOW") || is_literal v (lit "NORMAL") || is_literal v (lit "HIGH") = true
  ↔ ∃ p, v = Some (JStr p) ∧ is_priority p.
Proof.
  rewrite !orb_true_iff, !is_literal_spec. unfold is_priority. split.
  - intros [[->| ->]| ->]; eauto 6.
  - intros (p & -> & [->|[->| ->]]); auto.
Qed.

Lemma valid_status_spec v :
  is_literal v (lit "DELIVERED") || is_literal v (lit "FAILED") = true
  ↔ ∃ p, v = Some (JStr p) ∧ is_ack_status p.
Proof.
  rewrite !orb_true_iff, !is_literal_spec. unfold is_ack_status. split.
  - intros [->| ->]; eauto 6.
  - intros (p & -> & [->| ->]); auto.
Qed.

(** What [parseUserNotification] accepts, and what it returns. *)
Lemma parseUserNotification_spec payload e :
  parseUserNotification payload = Some e ↔ user_shape payload e.
Proof.
  unfold parseUserNotification, user_shape. split.
  - destruct (isObjectPayload payload) eqn:Hobj; simpl; [|discriminate].
    apply isObjectPayload_spec in Hobj as [[items ->]|[props ->]].
    { simpl. discriminate. }
    simpl get.
    destruct (_ || _) eqn:Hguard; [discriminate|].
    intros [= <-]. simpl.
    apply orb_false_iff in Hguard as [Hguard Hp].
    apply orb_false_iff in Hguard as [Hguard Hb].
    apply orb_false_iff in Hguard as [Hguard Ht].
    apply orb_false_iff in Hguard as [Hn Hr].
    apply negb_false_iff, valid_priority_spec in Hp as (p & Hp & ?).
    apply not_type_string in Hn as [? Hn], Hr as [? Hr], Ht as [? Ht], Hb as [? Hb].
    exists props. rewrite Hn, Hr, Ht, Hb, Hp. simpl. auto 10.
  - intros (props & -> & Hn & Hr & Ht & Hb & Hp & Hvalid).
    simpl. rewrite Hn, Hr, Ht, Hb, Hp.
    assert (is_literal (Some (JStr (un_priority e))) (lit "LOW")
            || is_literal (Some (JStr (un_priority e))) (lit "NORMAL")
            || is_literal (Some (JStr (un_priority e))) (lit "HIGH") = true) as ->
      by (apply valid_priority_spec; eauto).
    simpl. by destruct e.
Qed.

(** What [parseDeliveryAck] accepts, and what it returns. *)
Lemma parseDeliveryAck_spec payload e :
  parseDeliveryAck payload = Some e ↔ ack_shape payload e.
Proof.
  unfold parseDeliveryAck, ack_shape. split.
  - destruct (isObjectPayload payload) eqn:Hobj; simpl; [|discriminate].
    apply isObjectPayload_spec in Hobj as [[items ->]|[props ->]].
    { simpl. discriminate. }
    simpl get.
    destruct (_ || _) eqn:Hguard; [discriminate|].
    destruct (_ && _) eqn:Hreason; [discriminate|].
    intros [= <-]. simpl.
    apply orb_false_iff in Hguard as [Hguard Hp].
    apply orb_false_iff in Hguard as [Hguard Ha].
    apply orb_false_iff in Hguard as [Hr Hn].
    apply negb_false_iff, valid_status_spec in Hp as (p & Hp & ?).
    apply not_type_string in Hn as [? Hn], Hr as [? Hr], Ha as [? Ha].
    exists props. rewrite Hn, Hr, Ha, Hp. simpl.
    do 6 (split; [done|]).
    apply andb_false_iff in Hreason as [Hu|Hs].
    + apply not_type_undefined in Hu. rewrite Hu. by left.
    + apply not_type_string in Hs as [reason ->]. right. by exists reason.
  - intros (props & -> & Hr & Hn & Ha & Hs & Hvalid & Hreason).
    simpl. rewrite Hr, Hn, Ha, Hs.
    assert (is_literal (Some (JStr (ack_status e))) (lit "DELIVERED")
            || is_literal (Some (JStr (ack_status e))) (lit "FAILED") = true) as ->
      by (apply valid_status_spec; eauto).
    simpl. destruct e; simpl in *.
    destruct Hreason as [[-> ->]|(reason & -> & ->)]; reflexivity.
Qed.

End Validators.

Lemma in_user_fields (k : jsstring) :
  bool_decide (k ∈ user_fields) = true → k ∈ user_fields.
Proof. apply bool_decide_eq_true_1. Qed.

Lemma not_in_user_fields (k : jsstring) :
  bool_decide (k ∈ user_fields) = false → k ∉ user_fields.
Proof. apply bool_decide_eq_false_1. Qed.

(** A value with the five fields and one more. *)
Example extra_field_decodes :
  decodes_to
    (payload "{'notificationId':'n-1','requestId':'r-1','title':'Hello','body':'World','priority':'HIGH','traceId':'t-9'}")
    (JObj (<[ lit "traceId" := JStr (lit "t-9") ]> sample_user_fields)).
Proof. vm_compute. reflexivity. Qed.

(** C3, as the specification words it, fails: the validator accepts a
    value that has the five fields and a sixth property, [traceId]. *)
Lemma user_validator_accepts_extra_field :
  let v := JObj (<[ lit "traceId" := JStr (lit "t-9") ]> sample_user_fields) in
  parseUserNotification v = Some sample_user_event
  ∧ ¬ ∃ e, exact_user_shape v e.
Proof.
  split; [vm_compute; reflexivity|].
  intros (e & _ & props & [= <-] & Hdom).
  assert (lit "traceId" ∈ user_fields) as Hin.
  { rewrite <- Hdom. apply elem_of_dom. eexists. vm_compute. reflexivity. }
  revert Hin. apply not_in_user_fields. vm_compute. reflexivity.
Qed.

(** C3, amended: [parseUserNotification] accepts a decoded value exactly
    when it is a non-null keyed structure whose five required fields are
    there and are strings, with a priority that is exactly LOW, NORMAL
    or HIGH; it then returns those five fields.  Everything else is
    rejected as a whole, and a property beyond the five changes
    nothing. *)
Theorem user_validator_accepts_iff_fields (v : Json) :
  (∀ e, parseUserNotification v = Some e ↔ user_shape v e)
  ∧ (parseUserNotification v = None ↔ ¬ ∃ e, user_shape v e)
  ∧ (∀ props name x,
       v = JObj props → name ∉ user_fields →
       parseUserNotification (JObj (<[ name := x ]> props)) = parseUserNotification v).
Proof.
  split; [|split].
  - intros e. apply parseUserNotification_spec.
  - split.
    + intros Hnone (e & He%parseUserNotification_spec). congruence.
    + intros Hno. destruct (parseUserNotification v) as [e|] eqn:He; [|done].
      exfalso. apply Hno. exists e. by apply parseUserNotification_spec.
  - intros props name x -> Hname.
    unfold parseUserNotification. simpl.
    assert (∀ k, k ∈ user_fields → <[ name := x ]> props !! k = props !! k) as Hsame.
    { intros k Hk. apply lookup_insert_ne. intros ->. done. }
    rewrite !Hsame; [done|..]; apply in_user_fields; vm_compute; reflexivity.
Qed.

Lemma user_validator_accepts_iff_fields_witness :
  parseUserNotification (JObj (<[ lit "traceId" := JNull ]> sample_user_fields))
  = parseUserNotification (JObj sample_user_fields).
Proof.
  apply (user_validator_accepts_iff_fields (JObj sample_user_fields)).
  - reflexivity.
  - apply not_in_user_fields. vm_compute. reflexivity.
Defined.

(** C4: [parseDeliveryAck] accepts a decoded value exactly when the four
    required fields are there and are strings, with a status that is
    exactly DELIVERED or FAILED, and [failureReason] is either absent or
    a string; a [failureReason] that is there and is not a string makes
    the whole event invalid. *)
Theorem ack_validator_accepts_iff_fields (v : Json) :
  (∀ e, parseDeliveryAck v = Some e ↔ ack_shape v e)
  ∧ (parseDeliveryAck v = None ↔ ¬ ∃ e, ack_shape v e)
  ∧ (∀ props x,
       v = JObj props → props !! lit "failureReason" = Some x → (∀ s, x ≠ JStr s) →
       parseDeliveryAck v = None).
Proof.
  assert (parseDeliveryAck v = None ↔ ¬ ∃ e, ack_shape v e) as Hnone.
  { split.
    - intros Hnone (e & He%parseDeliveryAck_spec). congruence.
    - intros Hno. destruct (parseDeliveryAck v) as [e|] eqn:He; [|done].
      exfalso. apply Hno. exists e. by apply parseDeliveryAck_spec. }
  split; [|split]; [|done|].
  - intros e. apply parseDeliveryAck_spec.
  - intros props x -> Hx Hnot. apply Hnone.
    intros (e & props' & [= <-] & _ & _ & _ & _ & _ & [[Habs _]|(reason & Hr & _)]).
    + congruence.
    + rewrite Hx in Hr. injection Hr as ->. by eapply Hnot.
Qed.

Lemma ack_validator_accepts_iff_fields_witness :
  parseDeliveryAck (JObj (<[ lit "failureReason" := JNum (lit "42") ]>
                           (sample_ack_fields "FAILED"))) = None
  ∧ parseDeliveryAck (JObj (sample_ack_fields "FAILED")) = Some (sample_ack_event "FAILED").
Proof.
  split.
  - eapply (ack_validator_accepts_iff_fields _); [reflexivity| |].
    + vm_compute. reflexivity.
    + intros s. discriminate.
  - apply (ack_validator_accepts_iff_fields _).
    exists (sample_ack_fields "FAILED").
    repeat split; try (vm_compute; reflexivity).
    + right. reflexivity.
    + left. split; vm_compute; reflexivity.
Defined.

(** ** The message handler *)

Ltac mrun :=
  unfold mbind, completion_bind, mret, completion_ret, try_catch in *; simpl in *.

Ltac mstep :=
  unfold mbind, completion_bind, mret, completion_ret; cbv beta iota.

Lemma str_eq_spec (a b : jsstring) : str_eq a b = true ↔ a = b.
Proof. apply bool_decide_eq_true. Qed.

Lemma str_eq_refl (a : jsstring) : str_eq a a = true.
Proof. by apply str_eq_spec. Qed.

Lemma str_eq_ne (a b : jsstring) : a ≠ b → str_eq a b = false.
Proof. intros. by apply bool_decide_eq_false. Qed.

(** The handler with the decoding step taken out: [v] is what
    [parseJsonPayload] hands back. *)
Lemma on_message_decoded cfg topic buffer stats v :
  decodes_to buffer v →
  on_message cfg topic buffer stats =
    if is_null v then Normal (stats, [log_non_json topic])
    else if str_eq topic (userNotificationTopic cfg) then
      match parseUserNotification v with
      | None => Normal (stats, [log_invalid_user topic])
      | Some _ =>
          Normal ({| received := (received stats + 1)%Z;
                     ackDelivered := ackDelivered stats;
                     ackFailed := ackFailed stats |}, [])
      end
    else if str_eq topic (notificationAckTopic cfg) then
      match parseDeliveryAck v with
      | None => Normal (stats, [log_invalid_ack topic])
      | Some event =>
          if str_eq (ack_status event) (lit "DELIVERED") then
            Normal ({| received := received stats;
                       ackDelivered := (ackDelivered stats + 1)%Z;
                       ackFailed := ackFailed stats |}, [])
          else
            Normal ({| received := received stats;
                       ackDelivered := ackDelivered stats;
                       ackFailed := (ackFailed stats + 1)%Z |}, [])
      end
    else Normal (stats, []).
Proof.
  unfold decodes_to, on_message, parseJsonPayload. intros ->. mrun.
  repeat case_match; reflexivity.
Qed.

Lemma on_message_undecoded cfg topic buffer stats err :
  JSON.parse (Utf8.toString buffer) = Throw err →
  on_message cfg topic buffer stats = Normal (stats, [log_non_json topic]).
Proof. unfold on_message, parseJsonPayload. intros ->. reflexivity. Qed.

Lemma decoded_or_not (buffer : list byte) :
  (∃ v, decodes_to buffer v) ∨ (∃ err, JSON.parse (Utf8.toString buffer) = Throw err).
Proof. unfold decodes_to. destruct (JSON.parse _); eauto. Qed.

(** What a message does to the counters does not depend on the
    counters: it leaves them alone or takes one step on one of them. *)
Lemma on_message_kind cfg m :
  (increment cfg m = (0, 0, 0)%Z
   ∧ ∀ s, ∃ lines, on_message cfg (msg_topic m) (msg_payload m) s = Normal (s, lines))
  ∨ (increment cfg m = (1, 0, 0)%Z
     ∧ ∀ s, on_message cfg (msg_topic m) (msg_payload m) s =
            Normal ({| received := (received s + 1)%Z;
                       ackDelivered := ackDelivered s;
                       ackFailed := ackFailed s |}, []))
  ∨ (increment cfg m = (0, 1, 0)%Z
     ∧ ∀ s, on_message cfg (msg_topic m) (msg_payload m) s =
            Normal ({| received := received s;
                       ackDelivered := (ackDelivered s + 1)%Z;
                       ackFailed := ackFailed s |}, []))
  ∨ (increment cfg m = (0, 0, 1)%Z
     ∧ ∀ s, on_message cfg (msg_topic m) (msg_payload m) s =
            Normal ({| received := received s;
                       ackDelivered := ackDelivered s;
                       ackFailed := (ackFailed s + 1)%Z |}, [])).
Proof.
  unfold increment.
  destruct (decoded_or_not (msg_payload m)) as [[v Hv]|[err Herr]].
  - rewrite (on_message_decoded _ _ _ notificationStats v Hv).
    destruct (is_null v) eqn:Hnull.
    { left. split; [done|]. intros s. rewrite (on_message_decoded _ _ _ s v Hv), Hnull. eauto. }
    destruct (str_eq (msg_topic m) (userNotificationTopic cfg)) eqn:Huser.
    { destruct (parseUserNotification v) eqn:Hparse.
      - right. left. split; [done|]. intros s.
        by rewrite (on_message_decoded _ _ _ s v Hv), Hnull, Huser, Hparse.
      - left. split; [done|]. intros s.
        rewrite (on_message_decoded _ _ _ s v Hv), Hnull, Huser, Hparse. eauto. }
    destruct (str_eq (msg_topic m) (notificationAckTopic cfg)) eqn:Hack.
    { destruct (parseDeliveryAck v) as [event|] eqn:Hparse.
      - destruct (str_eq (ack_status event) (lit "DELIVERED")) eqn:Hstatus.
        + right. right. left. split; [done|]. intros s.
          by rewrite (on_message_decoded _ _ _ s v Hv), Hnull, Huser, Hack, Hparse, Hstatus.
        + right. right. right. split; [done|]. intros s.
          by rewrite (on_message_decoded _ _ _ s v Hv), Hnull, Huser, Hack, Hparse, Hstatus.
      - left. split; [done|]. intros s.
        rewrite (on_message_decoded _ _ _ s v Hv), Hnull, Huser, Hack, Hparse. eauto. }
    left. split; [done|]. intros s.
    rewrite (on_message_decoded _ _ _ s v Hv), Hnull, Huser, Hack. eauto.
  - rewrite (on_message_undecoded _ _ _ _ _ Herr).
    left. split; [done|]. intros s. rewrite (on_message_undecoded _ _ _ _ _ Herr). eauto.
Qed.

(** The handler always runs to its end. *)
Lemma on_message_returns cfg topic buffer stats :
  ∃ stats' lines, on_message cfg topic buffer stats = Normal (stats', lines).
Proof.
  destruct (on_message_kind cfg (mkMessage topic buffer)) as [[_ H]|[[_ H]|[[_ H]|[_ H]]]];
    simpl in H.
  - destruct (H stats) as [lines ->]. eauto.
  - rewrite H. eauto.
  - rewrite H. eauto.
  - rewrite H. eauto.
Qed.

Lemma on_message_monotone cfg topic buffer stats stats' lines :
  on_message cfg topic buffer stats = Normal (stats', lines) →
  stats_le stats stats' ∧ (stats_nonneg stats → stats_nonneg stats').
Proof.
  unfold stats_le, stats_nonneg.
  destruct (on_message_kind cfg (mkMessage topic buffer)) as [[_ H]|[[_ H]|[[_ H]|[_ H]]]];
    simpl in H.
  - destruct (H stats) as [lines' ->]. intros [= <- _]. lia.
  - rewrite H. intros [= <- _]. simpl. lia.
  - rewrite H. intros [= <- _]. simpl. lia.
  - rewrite H. intros [= <- _]. simpl. lia.
Qed.

(** C1: a message on the user-notification topic whose payload carries
    a valid UserNotificationEvent adds exactly 1 to [received] and
    leaves both ack counters as they were; a message on the
    acknowledgement topic (a topic other than the user-notification
    topic, which is looked at first) whose payload carries a valid
    NotificationDeliveryAckEvent adds exactly 1 to [ackDelivered] when
    its status is DELIVERED and to [ackFailed] when it is FAILED, and
    leaves the other two counters as they were. *)
Theorem dispatch_counts_valid_event cfg topic buffer stats v :
  decodes_to buffer v →
  (∀ e, topic = userNotificationTopic cfg → user_shape v e →
        on_message cfg topic buffer stats =
          Normal ({| received := received stats + 1;
                     ackDelivered := ackDelivered stats;
                     ackFailed := ackFailed stats |}, []))
  ∧ (∀ e, topic = notificationAckTopic cfg → topic ≠ userNotificationTopic cfg →
          ack_shape v e → ack_status e = lit "DELIVERED" →
          on_message cfg topic buffer stats =
            Normal ({| received := received stats;
                       ackDelivered := ackDelivered stats + 1;
                       ackFailed := ackFailed stats |}, []))
  ∧ (∀ e, topic = notificationAckTopic cfg → topic ≠ userNotificationTopic cfg →
          ack_shape v e → ack_status e = lit "FAILED" →
          on_message cfg topic buffer stats =
            Normal ({| received := received stats;
                       ackDelivered := ackDelivered stats;
                       ackFailed := ackFailed stats + 1 |}, [])).
Proof.
  intros Hv. rewrite (on_message_decoded _ _ _ _ _ Hv). repeat split.
  - intros e -> Hshape.
    pose proof Hshape as (props & -> & _).
    apply parseUserNotification_spec in Hshape.
    simpl. by rewrite str_eq_refl, Hshape.
  - intros e -> Hne Hshape Hstatus.
    pose proof Hshape as (props & -> & _).
    apply parseDeliveryAck_spec in Hshape.
    simpl. rewrite (str_eq_ne _ _ Hne), str_eq_refl, Hshape, Hstatus.
    by rewrite str_eq_refl.
  - intros e -> Hne Hshape Hstatus.
    pose proof Hshape as (props & -> & _).
    apply parseDeliveryAck_spec in Hshape.
    simpl. rewrite (str_eq_ne _ _ Hne), str_eq_refl, Hshape, Hstatus.
    reflexivity.
Qed.

Lemma sample_user_shape : user_shape (JObj sample_user_fields) sample_user_event.
Proof. apply parseUserNotification_spec. vm_compute. reflexivity. Qed.

Lemma sample_ack_shape status :
  is_ack_status (lit status) →
  ack_shape (JObj (sample_ack_fields status)) (sample_ack_event status).
Proof.
  intros Hstatus. exists (sample_ack_fields status).
  repeat split; try done. left. done.
Qed.

Lemma dispatch_counts_valid_event_witness :
  on_message default_config (lit "notification/user") (payload sample_user_text)
    {| received := 7; ackDelivered := 3; ackFailed := 2 |}
  = Normal ({| received := 8; ackDelivered := 3; ackFailed := 2 |}, [])
  ∧ on_message default_config (lit "notification/ack") (payload (sample_ack_text "DELIVERED"))
      {| received := 7; ackDelivered := 3; ackFailed := 2 |}
    = Normal ({| received := 7; ackDelivered := 4; ackFailed := 2 |}, [])
  ∧ on_message default_config (lit "notification/ack") (payload (sample_ack_text "FAILED"))
      {| received := 7; ackDelivered := 3; ackFailed := 2 |}
    = Normal ({| received := 7; ackDelivered := 3; ackFailed := 3 |}, []).
Proof.
  pose (stats := {| received := 7; ackDelivered := 3; ackFailed := 2 |}).
  split; [|split].
  - apply (dispatch_counts_valid_event default_config (lit "notification/user")
             (payload sample_user_text) stats (JObj sample_user_fields))
      with (e := sample_user_event).
    + vm_compute. reflexivity.
    + reflexivity.
    + apply sample_user_shape.
  - apply (dispatch_counts_valid_event default_config (lit "notification/ack")
             (payload (sample_ack_text "DELIVERED")) stats
             (JObj (sample_ack_fields "DELIVERED")))
      with (e := sample_ack_event "DELIVERED").
    + vm_compute. reflexivity.
    + reflexivity.
    + vm_compute. discriminate.
    + apply sample_ack_shape. left. reflexivity.
    + reflexivity.
  - apply (dispatch_counts_valid_event default_config (lit "notification/ack")
             (payload (sample_ack_text "FAILED")) stats
             (JObj (sample_ack_fields "FAILED")))
      with (e := sample_ack_event "FAILED").
    + vm_compute. reflexivity.
    + reflexivity.
    + vm_compute. discriminate.
    + apply sample_ack_shape. right. reflexivity.
    + reflexivity.
Defined.

(** The user-notification topic is looked at first: when both topics
    are configured with one name, every message on it is read as a
    user notification. *)
Remark same_topic_read_as_user_notification :
  let cfg := mkConfig (lit "events") (lit "events") in
  on_message cfg (lit "events") (payload (sample_ack_text "DELIVERED")) notificationStats
  = Normal (notificationStats, [log_invalid_user (lit "events")]).
Proof. vm_compute. reflexivity. Qed.

(** C2: a message whose payload does not decode, or decodes to a value
    that the validator of its topic rejects, is dropped: the handler
    writes one line to the error log, no counter moves, and the handler
    returns normally, as it does on every message. *)
Theorem invalid_payload_dropped cfg topic buffer stats :
  (∃ result, on_message cfg topic buffer stats = Normal result)
  ∧ (∀ err, JSON.parse (Utf8.toString buffer) = Throw err →
        on_message cfg topic buffer stats = Normal (stats, [log_non_json topic]))
  ∧ (∀ v, decodes_to buffer v → topic = userNotificationTopic cfg →
          (¬ ∃ e, user_shape v e) →
          ∃ line, on_message cfg topic buffer stats = Normal (stats, [line]))
  ∧ (∀ v, decodes_to buffer v → topic = notificationAckTopic cfg →
          topic ≠ userNotificationTopic cfg →
          (¬ ∃ e, ack_shape v e) →
          ∃ line, on_message cfg topic buffer stats = Normal (stats, [line])).
Proof.
  repeat split.
  - destruct (on_message_returns cfg topic buffer stats) as (s & l & ->). eauto.
  - intros err. apply on_message_undecoded.
  - intros v Hv -> Hbad. rewrite (on_message_decoded _ _ _ _ _ Hv).
    destruct (is_null v); [eauto|]. rewrite str_eq_refl.
    destruct (parseUserNotification v) as [e|] eqn:He; [|eauto].
    exfalso. apply Hbad. exists e. by apply parseUserNotification_spec.
  - intros v Hv -> Hne Hbad. rewrite (on_message_decoded _ _ _ _ _ Hv).
    destruct (is_null v); [eauto|]. rewrite (str_eq_ne _ _ Hne), str_eq_refl.
    destruct (parseDeliveryAck v) as [e|] eqn:He; [|eauto].
    exfalso. apply Hbad. exists e. by apply parseDeliveryAck_spec.
Qed.

Lemma invalid_payload_dropped_witness :
  on_message default_config (lit "notification/user") (payload "{'notificationId':")
    {| received := 7; ackDelivered := 3; ackFailed := 2 |}
  = Normal ({| received := 7; ackDelivered := 3; ackFailed := 2 |},
            [log_non_json (lit "notification/user")])
  ∧ ∃ line,
      on_message default_config (lit "notification/ack")
        (payload "{'requestId':'r-1','notificationId':'n-1','acknowledgedAt':'now','status':'delivered'}")
        {| received := 7; ackDelivered := 3; ackFailed := 2 |}
      = Normal ({| received := 7; ackDelivered := 3; ackFailed := 2 |}, [line]).
Proof.
  split.
  - eapply (invalid_payload_dropped default_config). vm_compute. reflexivity.
  - eapply (invalid_payload_dropped default_config).
    + vm_compute. reflexivity.
    + reflexivity.
    + vm_compute. discriminate.
    + intros (e & He%parseDeliveryAck_spec). vm_compute in He. discriminate.
Defined.

(** ** The counters over the life of the process *)

Lemma dispatch_monotone cfg loop loop' :
  dispatch cfg loop loop' →
  stats_le (stats_now loop) (stats_now loop')
  ∧ (stats_nonneg (stats_now loop) → stats_nonneg (stats_now loop')).
Proof. intros [before m after stats out stats' lines H]. simpl. by eapply on_message_monotone. Qed.

Lemma run_monotone cfg loop loop' :
  rtc (dispatch cfg) loop loop' →
  stats_le (stats_now loop) (stats_now loop')
  ∧ (stats_nonneg (stats_now loop) → stats_nonneg (stats_now loop')).
Proof.
  induction 1 as [loop|loop mid loop' Hstep _ [IHle IHnn]].
  - unfold stats_le. split; [lia|done].
  - destruct (dispatch_monotone _ _ _ Hstep) as [Hle Hnn].
    split; [|by auto]. unfold stats_le in *. lia.
Qed.

(** C5: the three counters are zero when the process starts; every run
    of the handler returns counters none of which is lower than before;
    and whatever messages arrive, in whatever order they are handled,
    the counters never go down and are never negative. *)
Theorem counters_start_at_zero_never_decrease :
  notificationStats = {| received := 0; ackDelivered := 0; ackFailed := 0 |}
  ∧ (∀ cfg topic buffer stats,
       ∃ stats' lines,
         on_message cfg topic buffer stats = Normal (stats', lines)
         ∧ stats_le stats stats')
  ∧ (∀ cfg loop loop',
       rtc (dispatch cfg) loop loop' → stats_le (stats_now loop) (stats_now loop'))
  ∧ (∀ cfg queue loop,
       rtc (dispatch cfg) (mkLoop queue notificationStats []) loop →
       stats_nonneg (stats_now loop)).
Proof.
  split; [reflexivity|]. split; [|split].
  - intros cfg topic buffer stats.
    destruct (on_message_returns cfg topic buffer stats) as (stats' & lines & H).
    exists stats', lines. split; [done|]. by eapply on_message_monotone.
  - intros cfg loop loop' Hrun. by apply (run_monotone cfg).
  - intros cfg queue loop Hrun.
    apply (run_monotone cfg) in Hrun as [_ Hnn]. apply Hnn.
    unfold stats_nonneg. simpl. lia.
Qed.

Lemma counters_start_at_zero_never_decrease_witness :
  stats_nonneg
    (stats_now (mkLoop [] {| received := 1; ackDelivered := 0; ackFailed := 0 |} [])).
Proof.
  apply counters_start_at_zero_never_decrease
    with (cfg := default_config)
         (queue := [mkMessage (lit "notification/user") (payload sample_user_text)]).
  eapply rtc_l; [|apply rtc_refl].
  apply (dispatch_one default_config []
           (mkMessage (lit "notification/user") (payload sample_user_text)) []
           notificationStats []).
  vm_compute. reflexivity.
Defined.

(** ** Decoding *)

(** C6, as the specification words it, fails in both directions.  The
    three bytes 22 FF 22 are not well-formed UTF-8, so they are not
    well-formed UTF-8-encoded JSON, and yet no decode failure is
    reported: the byte FF is decoded as U+FFFD, the text parses to a
    string, and the message goes on to schema validation.  And the four
    bytes of [null] are well-formed JSON, and yet the handler reports a
    decode failure: [parseJsonPayload] hands back [null] both for a
    text that does not parse and for the text that parses to [null]. *)
Lemma decode_failure_is_not_ill_formed_json :
  let topic := lit "notification/user" in
  (let buffer := [x22; xff; x22]%byte in
   ¬ well_formed_json_bytes buffer
   ∧ decodes_to buffer (JStr [65533])
   ∧ on_message default_config topic buffer notificationStats
     = Normal (notificationStats, [log_invalid_user topic])
   ∧ ¬ decode_failure_reported topic [log_invalid_user topic])
  ∧ (let buffer := payload "null" in
     well_formed_json_bytes buffer
     ∧ on_message default_config topic buffer notificationStats
       = Normal (notificationStats, [log_non_json topic])
     ∧ decode_failure_reported topic [log_non_json topic]).
Proof.
  intros topic. split.
  - intros buffer. split; [|split; [|split]].
    + intros [Hutf8 _]. vm_compute in Hutf8. discriminate.
    + vm_compute. reflexivity.
    + vm_compute. reflexivity.
    + unfold decode_failure_reported. intros H%list_elem_of_singleton.
      vm_compute in H. discriminate.
  - intros buffer. split; [split|split].
    + vm_compute. reflexivity.
    + exists JNull. vm_compute. reflexivity.
    + vm_compute. reflexivity.
    + unfold decode_failure_reported. by apply list_elem_of_singleton.
Qed.

Lemma log_lines_differ (topic : jsstring) :
  log_non_json topic ≠ log_invalid_user topic
  ∧ log_non_json topic ≠ log_invalid_ack topic.
Proof. split; intros H; vm_compute in H; discriminate. Qed.

(** C6, amended: the payload is decoded as UTF-8 with every ill-formed
    sequence replaced by U+FFFD, and the text is parsed as JSON.  When
    the text does not parse, the handler reports a decode failure, with
    the topic, and no counter moves.  When it parses to a value other
    than [null], no decode failure is reported and, on either
    subscribed topic, the outcome is the one the validator of that
    topic decides. *)
Theorem decode_failure_iff_not_parsed cfg topic buffer stats :
  (∀ err, JSON.parse (Utf8.toString buffer) = Throw err →
     on_message cfg topic buffer stats = Normal (stats, [log_non_json topic]))
  ∧ (∀ v, decodes_to buffer v → v ≠ JNull →
       ∃ stats' lines,
         on_message cfg topic buffer stats = Normal (stats', lines)
         ∧ ¬ decode_failure_reported topic lines
         ∧ (topic = userNotificationTopic cfg →
            (parseUserNotification v = None → lines = [log_invalid_user topic])
            ∧ (is_Some (parseUserNotification v) → lines = []))
         ∧ (topic = notificationAckTopic cfg → topic ≠ userNotificationTopic cfg →
            (parseDeliveryAck v = None → lines = [log_invalid_ack topic])
            ∧ (is_Some (parseDeliveryAck v) → lines = []))).
Proof.
  split; [intros err; apply on_message_undecoded|].
  intros v Hv Hnull. rewrite (on_message_decoded _ _ _ _ _ Hv).
  destruct (log_lines_differ topic) as [Huser Hack].
  assert (is_null v = false) as -> by (by destruct v).
  unfold decode_failure_reported.
  destruct (str_eq topic (userNotificationTopic cfg)) eqn:Htopic.
  - apply str_eq_spec in Htopic.
    destruct (parseUserNotification v) eqn:Hparse; do 2 eexists; (split; [done|]).
    + split; [by intros ?%elem_of_nil|]. split; [|done].
      intros _. split; [done|done].
    + split; [by intros ?%list_elem_of_singleton|]. split; [|done].
      intros _. split; [done|]. by intros [? ?].
  - destruct (str_eq topic (notificationAckTopic cfg)) eqn:Htopic'.
    + assert (topic ≠ userNotificationTopic cfg) as Hne
        by (intros ->; by rewrite str_eq_refl in Htopic).
      destruct (parseDeliveryAck v) as [event|] eqn:Hparse.
      * destruct (str_eq (ack_status event) (lit "DELIVERED"));
          do 2 eexists; (split; [done|]);
          (split; [by intros ?%elem_of_nil|]); (split; [done|]); by intros _ _.
      * do 2 eexists. split; [done|].
        split; [by intros ?%list_elem_of_singleton|]. split; [done|].
        intros _ _. split; [done|]. by intros [? ?].
    + do 2 eexists. split; [done|]. split; [by intros ?%elem_of_nil|].
      split.
      * intros ->. by rewrite str_eq_refl in Htopic.
      * intros ->. by rewrite str_eq_refl in Htopic'.
Qed.

Lemma decode_failure_iff_not_parsed_witness :
  on_message default_config (lit "notification/ack") (payload "{'status':") notificationStats
  = Normal (notificationStats, [log_non_json (lit "notification/ack")])
  ∧ ∃ stats' lines,
      on_message default_config (lit "notification/ack") (payload "[1, 2]") notificationStats
      = Normal (stats', lines)
      ∧ ¬ decode_failure_reported (lit "notification/ack") lines.
Proof.
  split.
  - eapply (decode_failure_iff_not_parsed default_config). vm_compute. reflexivity.
  - destruct (decode_failure_iff_not_parsed default_config (lit "notification/ack")
                (payload "[1, 2]") notificationStats) as [_ H].
    destruct (H (JArr [JNum (lit "1"); JNum (lit "2")])) as (stats' & lines & Hrun & Hno & _).
    + vm_compute. reflexivity.
    + discriminate.
    + exists stats', lines. split; assumption.
Defined.

(** ** Messages handled in any order *)

(** Two messages can be handled in either order. *)
Lemma on_message_commute cfg m m' s :
  (r ← on_message cfg (msg_topic m) (msg_payload m) s;
   r' ← on_message cfg (msg_topic m') (msg_payload m') (fst r);
   mret (fst r'))
  = (r ← on_message cfg (msg_topic m') (msg_payload m') s;
     r' ← on_message cfg (msg_topic m) (msg_payload m) (fst r);
     mret (fst r')).
Proof.
  destruct (on_message_kind cfg m) as [[_ H]|[[_ H]|[[_ H]|[_ H]]]];
  destruct (on_message_kind cfg m') as [[_ H']|[[_ H']|[[_ H']|[_ H']]]];
    repeat match goal with
      | H : ∀ s, ∃ lines, _ |- context [on_message cfg (msg_topic ?x) (msg_payload ?x) ?t] =>
          let l := fresh "lines" in
          let E := fresh "E" in
          destruct (H t) as [l E]; rewrite E; clear E; mstep; simpl
      | H : ∀ s, on_message _ _ _ s = _ |- _ => rewrite !H; mstep; simpl
      end; reflexivity.
Qed.

(** The order of the queue does not matter to what it leaves in the
    counters. *)
Lemma run_all_perm cfg (q q' : list Message) :
  q ≡ₚ q' → ∀ s, run_all cfg q s = run_all cfg q' s.
Proof.
  induction 1 as [|m q q' _ IH|m m' q|q q' q'' _ IH _ IH']; intros s; simpl.
  - reflexivity.
  - destruct (on_message_returns cfg (msg_topic m) (msg_payload m) s) as (s1 & l1 & ->).
    mstep. apply IH.
  - pose proof (on_message_commute cfg m m' s) as Hswap.
    destruct (on_message_returns cfg (msg_topic m) (msg_payload m) s) as (s1 & l1 & E1).
    destruct (on_message_returns cfg (msg_topic m') (msg_payload m') s1) as (s2 & l2 & E2).
    destruct (on_message_returns cfg (msg_topic m') (msg_payload m') s) as (t1 & k1 & F1).
    destruct (on_message_returns cfg (msg_topic m) (msg_payload m) t1) as (t2 & k2 & F2).
    rewrite E1, F1 in Hswap |- *. mstep. simpl in *.
    rewrite E2, F2 in Hswap |- *. mstep. simpl in *.
    by injection Hswap as ->.
  - by rewrite IH, IH'.
Qed.

(** One step of the loop leaves the same work to do. *)
Lemma dispatch_keeps_run cfg loop loop' :
  dispatch cfg loop loop' →
  run_all cfg (pending loop') (stats_now loop') = run_all cfg (pending loop) (stats_now loop).
Proof.
  intros [before m after stats out stats' lines Hrun]. simpl.
  rewrite (run_all_perm cfg (before ++ m :: after) (m :: before ++ after))
    by (symmetry; apply Permutation_middle).
  simpl. by rewrite Hrun.
Qed.

Lemma run_keeps_run cfg loop loop' :
  rtc (dispatch cfg) loop loop' →
  run_all cfg (pending loop') (stats_now loop') = run_all cfg (pending loop) (stats_now loop).
Proof.
  induction 1 as [loop|loop mid loop' Hstep _ IH]; [done|].
  by rewrite IH, (dispatch_keeps_run _ _ _ Hstep).
Qed.

Lemma sum_increments_perm cfg (q q' : list Message) :
  q ≡ₚ q' → sum_increments cfg q = sum_increments cfg q'.
Proof.
  induction 1 as [|m q q' _ IH|m m' q|q q' q'' _ IH _ IH']; simpl.
  - reflexivity.
  - by rewrite IH.
  - destruct (increment cfg m) as [[a b] c], (increment cfg m') as [[a' b'] c'],
      (sum_increments cfg q) as [[x y] z].
    f_equal; [f_equal|]; lia.
  - congruence.
Qed.

(** One step of the loop moves one message's increment from the queue
    into the counters. *)
Lemma dispatch_keeps_sum cfg loop loop' :
  dispatch cfg loop loop' →
  add_counts (stats_now loop') (sum_increments cfg (pending loop'))
  = add_counts (stats_now loop) (sum_increments cfg (pending loop)).
Proof.
  intros [before m after stats out stats' lines Hrun]. simpl.
  rewrite (sum_increments_perm cfg (before ++ m :: after) (m :: before ++ after))
    by (symmetry; apply Permutation_middle).
  simpl.
  destruct (sum_increments cfg (before ++ after)) as [[x y] z].
  destruct (on_message_kind cfg m) as [[-> H]|[[-> H]|[[-> H]|[-> H]]]].
  - destruct (H stats) as [lines' Hsame]. rewrite Hsame in Hrun.
    injection Hrun as <- _. unfold add_counts. simpl. f_equal; lia.
  - rewrite H in Hrun. injection Hrun as <- _. unfold add_counts. simpl. f_equal; lia.
  - rewrite H in Hrun. injection Hrun as <- _. unfold add_counts. simpl. f_equal; lia.
  - rewrite H in Hrun. injection Hrun as <- _. unfold add_counts. simpl. f_equal; lia.
Qed.

Lemma run_keeps_sum cfg loop loop' :
  rtc (dispatch cfg) loop loop' →
  add_counts (stats_now loop') (sum_increments cfg (pending loop'))
  = add_counts (stats_now loop) (sum_increments cfg (pending loop)).
Proof.
  induction 1 as [loop|loop mid loop' Hstep _ IH]; [done|].
  by rewrite IH, (dispatch_keeps_sum _ _ _ Hstep).
Qed.

(** The loop can always go on until the queue is empty. *)
Lemma loop_drains cfg queue stats out :
  ∃ final, rtc (dispatch cfg) (mkLoop queue stats out) final ∧ pending final = [].
Proof.
  revert stats out. induction queue as [|m queue IH]; intros stats out.
  - eexists. split; [apply rtc_refl|done].
  - destruct (on_message_returns cfg (msg_topic m) (msg_payload m) stats)
      as (stats' & lines & Hrun).
    destruct (IH stats' (out ++ lines)) as (final & Hrest & Hempty).
    exists final. split; [|done].
    eapply rtc_l; [|exact Hrest].
    by apply (dispatch_one cfg [] m queue stats out stats' lines).
Qed.

(** C9: the listener is synchronous, so of N messages that have arrived
    together the event loop handles one at a time, each to its end, in
    some order.  Whatever the order, once all N have been handled each
    counter has grown by the sum of what the N messages add one by one,
    which is also what handling them one after the other from the head
    of the queue gives: no increment is lost. *)
Theorem concurrent_dispatch_loses_no_update cfg queue stats out :
  (∃ final, rtc (dispatch cfg) (mkLoop queue stats out) final ∧ pending final = [])
  ∧ (∀ final,
       rtc (dispatch cfg) (mkLoop queue stats out) final → pending final = [] →
       stats_now final = add_counts stats (sum_increments cfg queue)
       ∧ run_all cfg queue stats = Normal (stats_now final)).
Proof.
  split; [apply loop_drains|].
  intros final Hrun Hempty. split.
  - apply run_keeps_sum in Hrun. simpl in Hrun.
    rewrite Hempty in Hrun. simpl in Hrun. rewrite <- Hrun.
    unfold add_counts. destruct (stats_now final). simpl. f_equal; lia.
  - apply run_keeps_run in Hrun. simpl in Hrun. by rewrite <- Hrun, Hempty.
Qed.

Lemma concurrent_dispatch_loses_no_update_witness :
  let m1 := mkMessage (lit "notification/user") (payload sample_user_text) in
  let m2 := mkMessage (lit "notification/ack") (payload (sample_ack_text "DELIVERED")) in
  let after := {| received := 1; ackDelivered := 1; ackFailed := 0 |} in
  after = add_counts notificationStats (sum_increments default_config [m1; m2])
  ∧ run_all default_config [m1; m2] notificationStats = Normal after.
Proof.
  intros m1 m2 after.
  pose (s1 := {| received := 0; ackDelivered := 1; ackFailed := 0 |}).
  assert (rtc (dispatch default_config) (mkLoop [m1; m2] notificationStats [])
            (mkLoop [] after [])) as Hrun.
  { eapply rtc_l.
    { apply (dispatch_one default_config [m1] m2 [] notificationStats [] s1 []).
      vm_compute. reflexivity. }
    eapply rtc_l; [|apply rtc_refl].
    apply (dispatch_one default_config [] m1 [] s1 [] after []).
    vm_compute. reflexivity. }
  destruct (concurrent_dispatch_loses_no_update default_config [m1; m2]
              notificationStats []) as (_ & Hsum).
  apply (Hsum (mkLoop [] after [])); [exact Hrun|reflexivity].
Defined.

(** ** The date pattern *)

Section RegexFacts.

Import Regex.

Lemma nullable_spec r : nullable r = true ↔ matches r [].
Proof.
  split.
  - induction r; simpl; try discriminate.
    + constructor.
    + intros [H1 H2]%andb_true_iff. apply (m_seq _ _ [] []); auto.
    + intros [H|H]%orb_true_iff; [apply m_alt_l|apply m_alt_r]; auto.
  - intros H. remember [] as s eqn:Hs. induction H; simpl; try discriminate; auto.
    + apply app_eq_nil in Hs as [-> ->]. rewrite IHmatches1, IHmatches2; auto.
    + rewrite IHmatches; auto.
    + rewrite IHmatches; auto. apply orb_true_r.
Qed.

Lemma deriv_sound c r s : matches (deriv c r) s → matches r (c :: s).
Proof.
  revert s. induction r as [| |x| |r1 IH1 r2 IH2|r1 IH1 r2 IH2]; simpl; intros s H.
  - inversion H.
  - inversion H.
  - destruct (c =? x) eqn:Hc; inversion H; subst.
    apply N.eqb_eq in Hc as ->. constructor.
  - destruct (is_digit c) eqn:Hc; inversion H; subst. by constructor.
  - destruct (nullable r1) eqn:Hn.
    + inversion H as [| | | |? ? ? H'|? ? ? H']; subst.
      * inversion H' as [| | |? ? s1 s2 Hs1 Hs2| |]; subst.
        apply (m_seq _ _ (c :: s1) s2); auto.
      * apply (m_seq _ _ [] (c :: s)); auto. by apply nullable_spec.
    + inversion H as [| | |? ? s1 s2 Hs1 Hs2| |]; subst.
      apply (m_seq _ _ (c :: s1) s2); auto.
  - inversion H; subst; [apply m_alt_l|apply m_alt_r]; auto.
Qed.

Lemma deriv_complete c r s : matches r (c :: s) → matches (deriv c r) s.
Proof.
  revert s. induction r as [| |x| |r1 IH1 r2 IH2|r1 IH1 r2 IH2]; simpl; intros s H.
  - inversion H.
  - inversion H.
  - inversion H; subst. rewrite N.eqb_refl. constructor.
  - inversion H as [| |? Hc| | |]; subst. rewrite Hc. constructor.
  - inversion H as [| | |? ? s1 s2 Hs1 Hs2| |]; subst.
    match goal with Heq : s1 ++ s2 = c :: s |- _ =>
      destruct s1 as [|c' s1]; simpl in Heq; [subst|injection Heq as -> <-] end.
    + apply nullable_spec in Hs1 as ->. apply m_alt_r. auto.
    + destruct (nullable r1); [apply m_alt_l|]; apply m_seq; auto.
  - inversion H; subst; [apply m_alt_l|apply m_alt_r]; auto.
Qed.

(** [test] decides the language of the pattern. *)
Lemma test_spec r s : test r s = true ↔ matches r s.
Proof.
  revert r. induction s as [|c s IH]; intros r; simpl.
  - apply nullable_spec.
  - rewrite IH. split; [apply deriv_sound|apply deriv_complete].
Qed.

End RegexFacts.

Lemma matches_digit_cons c r s :
  Regex.is_digit c = true → Regex.matches r s →
  Regex.matches (Regex.Seq Regex.Digit r) (c :: s).
Proof. intros Hc Hs. apply (Regex.m_seq _ _ [c] s); [by constructor|done]. Qed.

Lemma matches_sym_cons c r s :
  Regex.matches r s → Regex.matches (Regex.Seq (Regex.Sym c) r) (c :: s).
Proof. intros Hs. apply (Regex.m_seq _ _ [c] s); [by constructor|done]. Qed.

Ltac invert_matches :=
  repeat match goal with
    | H : Regex.matches (Regex.Seq _ _) _ |- _ => inversion H; subst; clear H
    | H : Regex.matches Regex.Digit _ |- _ => inversion H; subst; clear H
    | H : Regex.matches (Regex.Sym _) _ |- _ => inversion H; subst; clear H
    | H : Regex.matches Regex.One _ |- _ => inversion H; subst; clear H
    end.

(** The strings of the date pattern: four digits, a hyphen, two digits,
    a hyphen, two digits. *)
Lemma date_pattern_shape (s : jsstring) :
  Regex.matches date_pattern s ↔
  ∃ y1 y2 y3 y4 m1 m2 d1 d2,
    s = [y1; y2; y3; y4; 45; m1; m2; 45; d1; d2]
    ∧ forallb Regex.is_digit [y1; y2; y3; y4; m1; m2; d1; d2] = true.
Proof.
  unfold date_pattern. simpl. split.
  - intros H. invert_matches. simpl.
    do 8 eexists. split; [reflexivity|]. simpl.
    repeat match goal with H : Regex.is_digit _ = true |- _ => rewrite H; clear H end.
    reflexivity.
  - intros (y1 & y2 & y3 & y4 & m1 & m2 & d1 & d2 & -> & Hd).
    repeat (apply andb_true_iff in Hd as [? Hd]).
    apply (Regex.m_seq _ _ [y1; y2; y3; y4] [45; m1; m2; 45; d1; d2]).
    { repeat (apply matches_digit_cons; [done|]). constructor. }
    apply matches_sym_cons.
    apply (Regex.m_seq _ _ [m1; m2] [45; d1; d2]).
    { repeat (apply matches_digit_cons; [done|]). constructor. }
    apply matches_sym_cons.
    repeat (apply matches_digit_cons; [done|]). constructor.
Qed.

(** ** The date validator *)

Lemma isValidDateString_returns (s : jsstring) :
  ∃ b, isValidDateString s = Normal b.
Proof.
  unfold isValidDateString, JsDate.construct, JsDate.getTime.
  destruct (Regex.test date_pattern s); simpl; [|eauto].
  destruct (JsDate.parse _); simpl; eauto.
Qed.

Lemma isValidDateString_rule (s : jsstring) :
  isValidDateString s = Normal true ↔
  Regex.matches date_pattern s
  ∧ ∃ t, JsDate.parse (s ++ lit "T00:00:00.000Z") = Some t
         ∧ ∃ iso, JsDate.toISOString (Some t) = Normal iso ∧ slice0 10 iso = s.
Proof.
  rewrite <- test_spec.
  unfold isValidDateString, JsDate.construct, JsDate.getTime.
  destruct (Regex.test date_pattern s); simpl.
  - destruct (JsDate.parse _) as [t|]; simpl.
    + split.
      * intros [= Heq%str_eq_spec]. split; [done|]. exists t. split; [done|]. eauto.
      * intros (_ & t' & [= <-] & iso & [= <-] & Hiso).
        mrun. f_equal. by apply str_eq_spec.
    + split; [discriminate|]. by intros (_ & t & ? & _).
  - split; [discriminate|]. by intros [? _].
Qed.

(** C7: the date validator accepts a string exactly when it matches
    [^\d{4}-\d{2}-\d{2}$], the string followed by [T00:00:00.000Z]
    parses to a time value, and the first ten characters of that time
    value written back in ISO form are the string itself; on every
    string it answers true or false.  So 2023-02-30 and 2023-13-01 are
    invalid, 2023-03-15 is valid, and the empty string is invalid. *)
Theorem date_validator_rule :
  (∀ s : jsstring,
     (∃ b, isValidDateString s = Normal b)
     ∧ (isValidDateString s = Normal true ↔
        Regex.matches date_pattern s
        ∧ ∃ t, JsDate.parse (s ++ lit "T00:00:00.000Z") = Some t
               ∧ ∃ iso, JsDate.toISOString (Some t) = Normal iso
                        ∧ slice0 10 iso = s))
  ∧ isValidDateString (lit "2023-02-30") = Normal false
  ∧ isValidDateString (lit "2023-13-01") = Normal false
  ∧ isValidDateString (lit "2023-03-15") = Normal true
  ∧ isValidDateString (lit "") = Normal false.
Proof.
  split.
  - intros s. split; [apply isValidDateString_returns|apply isValidDateString_rule].
  - repeat split; vm_compute; reflexivity.
Qed.

(** Why each of the three examples that are rejected is rejected. *)
Remark date_examples_explained :
  JsDate.toISOString (JsDate.parse (lit "2023-02-30T00:00:00.000Z"))
    = Normal (lit "2023-03-02T00:00:00.000Z")
  ∧ JsDate.parse (lit "2023-13-01T00:00:00.000Z") = None
  ∧ Regex.test date_pattern (lit "") = false.
Proof. repeat split; vm_compute; reflexivity. Qed.

(** ** The date validator and the calendar *)

Section Calendar.

Local Open Scope Z_scope.

Lemma leap_cases y :
  (JsDate.InLeapYear y = true ∧ y mod 4 = 0 ∧ (y mod 100 ≠ 0 ∨ y mod 400 = 0))
  ∨ (JsDate.InLeapYear y = false ∧ (y mod 4 ≠ 0 ∨ (y mod 100 = 0 ∧ y mod 400 ≠ 0))).
Proof.
  unfold JsDate.InLeapYear.
  destruct (Z.eqb_spec (y mod 4) 0), (Z.eqb_spec (y mod 100) 0), (Z.eqb_spec (y mod 400) 0);
    simpl; intuition lia.
Qed.

Lemma month_cases m :
  1 ≤ m ≤ 12 →
  m = 1 ∨ m = 2 ∨ m = 3 ∨ m = 4 ∨ m = 5 ∨ m = 6 ∨ m = 7 ∨ m = 8 ∨ m = 9
  ∨ m = 10 ∨ m = 11 ∨ m = 12.
Proof. lia. Qed.

(** Decide the comparisons between constants that are in the goal. *)
Ltac eval_tests :=
  repeat match goal with
    | |- context [Z.eqb ?a ?b] =>
        let v := eval vm_compute in (Z.eqb a b) in
        change (Z.eqb a b) with v; cbv iota
    | |- context [Z.leb ?a ?b] =>
        let v := eval vm_compute in (Z.leb a b) in
        change (Z.leb a b) with v; cbv iota
    | |- context [Z.ltb ?a ?b] =>
        let v := eval vm_compute in (Z.ltb a b) in
        change (Z.ltb a b) with v; cbv iota
    end.

Lemma split_400 y :
  y mod 400 / 4 = y / 4 - 100 * (y / 400) ∧ y mod 400 / 100 = y / 100 - 4 * (y / 400).
Proof. split; Z.div_mod_to_equations; lia. Qed.

(** The year of a 400-year era from the day of the era. *)
Lemma year_of_era yoe doy :
  0 ≤ yoe < 400 → 0 ≤ doy →
  (doy ≤ 364 ∨ (doy = 365 ∧ (yoe + 1) mod 4 = 0 ∧ ((yoe + 1) mod 100 ≠ 0 ∨ yoe = 399))) →
  let doe := 365 * yoe + yoe / 4 - yoe / 100 + doy in
  0 ≤ doe < 146097
  ∧ (doe - doe / 1460 + doe / 36524 - doe / 146096) / 365 = yoe.
Proof. intros Hy Hd Hleap doe. subst doe. split; Z.div_mod_to_equations; lia. Qed.

(** [civil] on a day given by its era, year of era and day of the year
    counted from the first of March. *)
Lemma civil_of_era era yoe doy :
  0 ≤ yoe < 400 → 0 ≤ doy →
  (doy ≤ 364 ∨ (doy = 365 ∧ (yoe + 1) mod 4 = 0 ∧ ((yoe + 1) mod 100 ≠ 0 ∨ yoe = 399))) →
  JsDate.civil (era * 146097 + (365 * yoe + yoe / 4 - yoe / 100 + doy) - 719468)
  = (let mp := (5 * doy + 2) / 153 in
     let m := if mp <? 10 then mp + 3 else mp - 9 in
     (yoe + era * 400 + (if m <=? 2 then 1 else 0), m, doy - (153 * mp + 2) / 5 + 1)).
Proof.
  intros Hy Hd Hleap.
  destruct (year_of_era yoe doy Hy Hd Hleap) as [Hdoe Hyoe].
  unfold JsDate.civil.
  set (doe := 365 * yoe + yoe / 4 - yoe / 100 + doy) in *.
  replace (era * 146097 + doe - 719468 + 719468) with (doe + era * 146097) by lia.
  rewrite Z.div_add, Z.mod_add by lia.
  rewrite (Z.div_small doe 146097), (Z.mod_small doe 146097) by lia.
  rewrite Hyoe. cbv zeta.
  replace (doe - (365 * yoe + yoe / 4 - yoe / 100)) with doy by (subst doe; lia).
  rewrite Z.add_0_l. reflexivity.
Qed.

(** [MakeDay] in the same terms. *)
Lemma MakeDay_era y m d :
  1 ≤ m ≤ 12 →
  let y' := if m <=? 2 then y - 1 else y in
  let mp := if m <=? 2 then m + 9 else m - 3 in
  JsDate.MakeDay y (m - 1) d
  = y' / 400 * 146097
    + (365 * (y' mod 400) + y' mod 400 / 4 - y' mod 400 / 100 + ((153 * mp + 2) / 5 + d - 1))
    - 719468.
Proof.
  intros Hm. unfold JsDate.MakeDay.
  replace ((m - 1) / 12) with 0 by (Z.div_mod_to_equations; lia).
  replace ((m - 1) mod 12) with (m - 1) by (Z.div_mod_to_equations; lia).
  rewrite Z.add_0_r. unfold JsDate.DayFromYear, JsDate.DaysBeforeMonth.
  destruct (leap_cases y) as [[-> Hl]|[-> Hl]];
    destruct (month_cases m Hm) as [->|[->|[->|[->|[->|[->|[->|[->|[->|[->|[->| ->]]]]]]]]]]];
    eval_tests;
    match goal with |- context [?x mod 400] => destruct (split_400 x) as [-> ->] end;
    Z.div_mod_to_equations; lia.
Qed.

Ltac solve_month k :=
  cbv zeta;
  match goal with |- context [(5 * ?t + 2) / 153] =>
    replace ((5 * t + 2) / 153) with k by (Z.div_mod_to_equations; lia) end;
  eval_tests; f_equal; [f_equal|]; Z.div_mod_to_equations; lia.

Lemma civil_MakeDay y m d :
  1 ≤ m ≤ 12 → 1 ≤ d ≤ days_in_month y m →
  JsDate.civil (JsDate.MakeDay y (m - 1) d) = (y, m, d).
Proof.
  intros Hm. rewrite MakeDay_era by done. unfold days_in_month. cbv zeta.
  destruct (leap_cases y) as [[-> Hl]|[-> Hl]];
    destruct (month_cases m Hm) as [->|[->|[->|[->|[->|[->|[->|[->|[->|[->|[->| ->]]]]]]]]]]];
    eval_tests; simpl orb; cbv iota; intros Hd;
    (rewrite civil_of_era; [|Z.div_mod_to_equations; lia..]).
  - solve_month 10. - solve_month 11. - solve_month 0. - solve_month 1.
  - solve_month 2. - solve_month 3. - solve_month 4. - solve_month 5.
  - solve_month 6. - solve_month 7. - solve_month 8. - solve_month 9.
  - solve_month 10. - solve_month 11. - solve_month 0. - solve_month 1.
  - solve_month 2. - solve_month 3. - solve_month 4. - solve_month 5.
  - solve_month 6. - solve_month 7. - solve_month 8. - solve_month 9.
Qed.

(** A day past the end of the month is a day of the next month. *)
Lemma MakeDay_rollover y m d :
  1 ≤ m ≤ 11 →
  JsDate.MakeDay y (m - 1) d = JsDate.MakeDay y m (d - days_in_month y m).
Proof.
  intros Hm. unfold JsDate.MakeDay, days_in_month.
  replace ((m - 1) / 12) with 0 by (Z.div_mod_to_equations; lia).
  replace ((m - 1) mod 12) with (m - 1) by (Z.div_mod_to_equations; lia).
  replace (m / 12) with 0 by (Z.div_mod_to_equations; lia).
  replace (m mod 12) with m by (Z.div_mod_to_equations; lia).
  rewrite Z.add_0_r. unfold JsDate.DaysBeforeMonth.
  assert (m = 1 ∨ m = 2 ∨ m = 3 ∨ m = 4 ∨ m = 5 ∨ m = 6 ∨ m = 7 ∨ m = 8 ∨ m = 9
          ∨ m = 10 ∨ m = 11) as [->|[->|[->|[->|[->|[->|[->|[->|[->|[->| ->]]]]]]]]]] by lia;
    destruct (JsDate.InLeapYear y); eval_tests; simpl orb; cbv iota; lia.
Qed.

Lemma days_in_month_range y m : 28 ≤ days_in_month y m ≤ 31.
Proof. unfold days_in_month. repeat case_match; lia. Qed.

Lemma december_has_31 y : days_in_month y 12 = 31.
Proof. reflexivity. Qed.

(** What [civil] gives back for the day that [Date.parse] computes:
    the date itself when it is a date of the calendar, and a date in
    the next month otherwise. *)
Lemma civil_MakeDay_any y m d :
  1 ≤ m ≤ 12 → 1 ≤ d ≤ 31 →
  JsDate.civil (JsDate.MakeDay y (m - 1) d)
  = if d <=? days_in_month y m then (y, m, d)
    else (y, m + 1, d - days_in_month y m).
Proof.
  intros Hm Hd. destruct (Z.leb_spec d (days_in_month y m)) as [Hle|Hgt].
  - apply civil_MakeDay; lia.
  - pose proof (days_in_month_range y m).
    pose proof (days_in_month_range y (m + 1)).
    assert (m ≤ 11) by (destruct (Z.eq_dec m 12) as [->|]; [rewrite december_has_31 in Hgt|]; lia).
    rewrite MakeDay_rollover by lia.
    replace m with (m + 1 - 1) at 1 by lia.
    apply civil_MakeDay; lia.
Qed.

Lemma MakeDay_bounds y m d :
  0 ≤ y ≤ 9999 → 1 ≤ m ≤ 12 → 1 ≤ d ≤ 31 →
  -800000 ≤ JsDate.MakeDay y (m - 1) d ≤ 3000000.
Proof.
  intros Hy Hm Hd. unfold JsDate.MakeDay.
  replace ((m - 1) / 12) with 0 by (Z.div_mod_to_equations; lia).
  rewrite Z.add_0_r. unfold JsDate.DayFromYear, JsDate.DaysBeforeMonth.
  repeat case_match; Z.div_mod_to_equations; lia.
Qed.

End Calendar.

Section DateText.

Local Open Scope Z_scope.

Lemma digit_val_char k :
  0 ≤ k ≤ 9 → JsDate.digit_val (JsDate.digit_char k) = Some k.
Proof.
  intros Hk. unfold JsDate.digit_val, JsDate.digit_char, Regex.is_digit.
  assert ((48 <=? Z.to_N (48 + k))%N && (Z.to_N (48 + k) <=? 57)%N = true) as ->.
  { apply andb_true_iff. split; apply N.leb_le; lia. }
  f_equal. lia.
Qed.

Lemma is_digit_char k : 0 ≤ k ≤ 9 → Regex.is_digit (JsDate.digit_char k) = true.
Proof.
  intros Hk. unfold JsDate.digit_char, Regex.is_digit.
  apply andb_true_iff. split; apply N.leb_le; lia.
Qed.

Lemma digit_is_char c :
  Regex.is_digit c = true → ∃ k, 0 ≤ k ≤ 9 ∧ c = JsDate.digit_char k.
Proof.
  unfold Regex.is_digit, JsDate.digit_char.
  intros [H1%N.leb_le H2%N.leb_le]%andb_true_iff.
  exists (Z.of_N c - 48). split; lia.
Qed.

Lemma num2_chars a b :
  0 ≤ a ≤ 9 → 0 ≤ b ≤ 9 →
  JsDate.num2 (JsDate.digit_char a) (JsDate.digit_char b) = Some (10 * a + b).
Proof. intros Ha Hb. unfold JsDate.num2. by rewrite !digit_val_char. Qed.

Lemma num4_chars a b c e :
  0 ≤ a ≤ 9 → 0 ≤ b ≤ 9 → 0 ≤ c ≤ 9 → 0 ≤ e ≤ 9 →
  JsDate.num4 (JsDate.digit_char a) (JsDate.digit_char b)
              (JsDate.digit_char c) (JsDate.digit_char e)
  = Some (1000 * a + 100 * b + 10 * c + e).
Proof.
  intros Ha Hb Hc He. unfold JsDate.num4. rewrite !num2_chars by done.
  simpl. f_equal. lia.
Qed.

Lemma pad2_chars a b :
  0 ≤ a ≤ 9 → 0 ≤ b ≤ 9 →
  JsDate.pad 2 (10 * a + b) = [JsDate.digit_char a; JsDate.digit_char b].
Proof.
  intros Ha Hb. simpl.
  replace ((10 * a + b) mod 10) with b by (Z.div_mod_to_equations; lia).
  replace ((10 * a + b) / 10 mod 10) with a by (Z.div_mod_to_equations; lia).
  reflexivity.
Qed.

Lemma pad4_chars a b c e :
  0 ≤ a ≤ 9 → 0 ≤ b ≤ 9 → 0 ≤ c ≤ 9 → 0 ≤ e ≤ 9 →
  JsDate.pad 4 (1000 * a + 100 * b + 10 * c + e)
  = [JsDate.digit_char a; JsDate.digit_char b; JsDate.digit_char c; JsDate.digit_char e].
Proof.
  intros Ha Hb Hc He. simpl.
  set (n := 1000 * a + 100 * b + 10 * c + e).
  replace (n mod 10) with e by (subst n; Z.div_mod_to_equations; lia).
  replace (n / 10 mod 10) with c by (subst n; Z.div_mod_to_equations; lia).
  replace (n / 10 / 10 mod 10) with b by (subst n; Z.div_mod_to_equations; lia).
  replace (n / 10 / 10 / 10 mod 10) with a by (subst n; Z.div_mod_to_equations; lia).
  reflexivity.
Qed.

Lemma two_digits n :
  0 ≤ n ≤ 99 → ∃ a b, 0 ≤ a ≤ 9 ∧ 0 ≤ b ≤ 9 ∧ n = 10 * a + b.
Proof.
  intros Hn. exists (n / 10), (n mod 10). Z.div_mod_to_equations. lia.
Qed.

Lemma four_digits n :
  0 ≤ n ≤ 9999 →
  ∃ a b c e, 0 ≤ a ≤ 9 ∧ 0 ≤ b ≤ 9 ∧ 0 ≤ c ≤ 9 ∧ 0 ≤ e ≤ 9
             ∧ n = 1000 * a + 100 * b + 10 * c + e.
Proof.
  intros Hn. exists (n / 1000), (n / 100 mod 10), (n / 10 mod 10), (n mod 10).
  Z.div_mod_to_equations. lia.
Qed.

(** The strings of the date pattern are the texts of a year below
    10000, a month below 100 and a day below 100. *)
Lemma pattern_is_date_text (s : jsstring) :
  Regex.matches date_pattern s ↔
  ∃ y m d, 0 ≤ y ≤ 9999 ∧ 0 ≤ m ≤ 99 ∧ 0 ≤ d ≤ 99 ∧ s = date_text y m d.
Proof.
  rewrite date_pattern_shape. unfold date_text. split.
  - intros (y1 & y2 & y3 & y4 & m1 & m2 & d1 & d2 & -> & Hd). simpl in Hd.
    apply andb_true_iff in Hd as [(a & ? & ->)%digit_is_char Hd].
    apply andb_true_iff in Hd as [(b & ? & ->)%digit_is_char Hd].
    apply andb_true_iff in Hd as [(c & ? & ->)%digit_is_char Hd].
    apply andb_true_iff in Hd as [(e & ? & ->)%digit_is_char Hd].
    apply andb_true_iff in Hd as [(m1' & ? & ->)%digit_is_char Hd].
    apply andb_true_iff in Hd as [(m2' & ? & ->)%digit_is_char Hd].
    apply andb_true_iff in Hd as [(d1' & ? & ->)%digit_is_char Hd].
    apply andb_true_iff in Hd as [(d2' & ? & ->)%digit_is_char Hd].
    exists (1000 * a + 100 * b + 10 * c + e), (10 * m1' + m2'), (10 * d1' + d2').
    rewrite pad4_chars, !pad2_chars by done. repeat split; try lia.
  - intros (y & m & d & (a & b & c & e & ? & ? & ? & ? & ->)%four_digits
            & (m1 & m2 & ? & ? & ->)%two_digits & (d1 & d2 & ? & ? & ->)%two_digits & ->).
    rewrite pad4_chars, !pad2_chars by done.
    do 8 eexists. split; [reflexivity|]. simpl.
    rewrite !is_digit_char by done. reflexivity.
Qed.

Lemma digit_char_inj a b :
  0 ≤ a ≤ 9 → 0 ≤ b ≤ 9 → JsDate.digit_char a = JsDate.digit_char b → a = b.
Proof. unfold JsDate.digit_char. lia. Qed.

Lemma date_text_inj y m d y' m' d' :
  0 ≤ y ≤ 9999 → 0 ≤ m ≤ 99 → 0 ≤ d ≤ 99 →
  0 ≤ y' ≤ 9999 → 0 ≤ m' ≤ 99 → 0 ≤ d' ≤ 99 →
  date_text y m d = date_text y' m' d' → y = y' ∧ m = m' ∧ d = d'.
Proof.
  intros (a & b & c & e & ? & ? & ? & ? & ->)%four_digits
         (m1 & m2 & ? & ? & ->)%two_digits (d1 & d2 & ? & ? & ->)%two_digits
         (a' & b' & c' & e' & ? & ? & ? & ? & ->)%four_digits
         (m1' & m2' & ? & ? & ->)%two_digits (d1' & d2' & ? & ? & ->)%two_digits.
  unfold date_text. rewrite !pad4_chars, !pad2_chars by done. simpl.
  intros [= ?%digit_char_inj ?%digit_char_inj ?%digit_char_inj ?%digit_char_inj
            ?%digit_char_inj ?%digit_char_inj ?%digit_char_inj ?%digit_char_inj];
    try done.
  lia.
Qed.

Lemma length_pad w n : length (JsDate.pad w n) = w.
Proof.
  revert n. induction w as [|w IH]; intros n; simpl; [done|].
  rewrite length_app, IH. simpl. lia.
Qed.

Lemma length_date_text y m d : length (date_text y m d) = 10%nat.
Proof. unfold date_text. rewrite !length_app, !length_pad. reflexivity. Qed.

(** [Date.parse] on the text of a date followed by midnight UTC. *)
Lemma parse_date_text y m d :
  0 ≤ y ≤ 9999 → 0 ≤ m ≤ 99 → 0 ≤ d ≤ 99 →
  JsDate.parse (date_text y m d ++ lit "T00:00:00.000Z")
  = if JsDate.between 1 12 m && JsDate.between 1 31 d
    then JsDate.TimeClip (JsDate.MakeDate (JsDate.MakeDay y (m - 1) d) 0)
    else None.
Proof.
  intros Hy Hm Hd.
  pose proof Hy as (a & b & c & e & ? & ? & ? & ? & Ey)%four_digits.
  pose proof Hm as (m1 & m2 & ? & ? & Em)%two_digits.
  pose proof Hd as (d1 & d2 & ? & ? & Ed)%two_digits.
  unfold date_text. rewrite Ey, Em, Ed at 1.
  rewrite pad4_chars, !pad2_chars by done.
  let v := eval vm_compute in (lit "T00:00:00.000Z") in
    change (lit "T00:00:00.000Z") with v.
  cbn [app JsDate.parse].
  rewrite num4_chars, !num2_chars by done.
  rewrite <- Ey, <- Em, <- Ed.
  change (JsDate.num2 48 48) with (Some 0).
  change (JsDate.num3 48 48 48) with (Some 0).
  cbn [mbind option_bind].
  destruct (JsDate.between 1 12 m && JsDate.between 1 31 d); reflexivity.
Qed.

(** The ISO form of midnight UTC on a day starts with the text of the
    date that [civil] gives for the day. *)
Lemma iso_of_day day Y M D :
  JsDate.civil day = (Y, M, D) → 0 ≤ Y ≤ 9999 →
  ∃ rest, JsDate.toISOString (Some (JsDate.MakeDate day 0))
          = Normal (date_text Y M D ++ rest).
Proof.
  intros Hcivil HY. unfold JsDate.toISOString, JsDate.MakeDate.
  unfold JsDate.YearFromTime, JsDate.MonthFromTime, JsDate.DateFromTime, JsDate.Day.
  rewrite Z.add_0_r, Z.div_mul by done. rewrite Hcivil. simpl fst. simpl snd.
  unfold JsDate.year_text, JsDate.between.
  assert ((0 <=? Y) && (Y <=? 9999) = true) as ->
    by (apply andb_true_iff; split; apply Z.leb_le; lia).
  rewrite Z.sub_add. unfold date_text.
  eexists. rewrite <- !app_assoc. reflexivity.
Qed.

(** The date validator on the text of three numbers: it accepts the
    dates of the calendar and nothing else. *)
Lemma valid_of_numbers y m d :
  0 ≤ y ≤ 9999 → 0 ≤ m ≤ 99 → 0 ≤ d ≤ 99 →
  isValidDateString (date_text y m d)
  = Normal (bool_decide (1 ≤ m ≤ 12 ∧ 1 ≤ d ≤ days_in_month y m)).
Proof.
  intros Hy Hm Hd. unfold isValidDateString.
  assert (Regex.test date_pattern (date_text y m d) = true) as ->.
  { apply test_spec, pattern_is_date_text. eauto 10. }
  unfold JsDate.construct, JsDate.getTime. rewrite parse_date_text by done.
  pose proof (days_in_month_range y m) as Hdim.
  destruct (JsDate.between 1 12 m && JsDate.between 1 31 d) eqn:Hrange.
  - unfold JsDate.between in Hrange.
    apply andb_true_iff in Hrange as [[?%Z.leb_le ?%Z.leb_le]%andb_true_iff
                                        [?%Z.leb_le ?%Z.leb_le]%andb_true_iff].
    pose proof (MakeDay_bounds y m d ltac:(lia) ltac:(lia) ltac:(lia)) as Hday.
    unfold JsDate.TimeClip.
    assert ((Z.abs (JsDate.MakeDate (JsDate.MakeDay y (m - 1) d) 0) <=? 8640000000000000)
            = true) as -> by (apply Z.leb_le; unfold JsDate.MakeDate, JsDate.msPerDay; lia).
    simpl JsDate.isNaN. cbv iota.
    pose proof (civil_MakeDay_any y m d ltac:(lia) ltac:(lia)) as Hcivil.
    destruct (Z.leb_spec d (days_in_month y m)) as [Hle|Hgt].
    + destruct (iso_of_day _ y m d Hcivil) as [rest ->]; [lia|].
      mstep. unfold slice0. rewrite take_app_length' by (by rewrite length_date_text).
      rewrite str_eq_refl. f_equal. symmetry. apply bool_decide_eq_true. lia.
    + destruct (iso_of_day _ y (m + 1) (d - days_in_month y m) Hcivil) as [rest ->]; [lia|].
      mstep. unfold slice0. rewrite take_app_length' by (by rewrite length_date_text).
      rewrite str_eq_ne.
      * f_equal. symmetry. apply bool_decide_eq_false. lia.
      * intros Heq. apply date_text_inj in Heq; lia.
  - simpl. f_equal. symmetry. apply bool_decide_eq_false.
    unfold JsDate.between in Hrange.
    intros [? ?]. apply andb_false_iff in Hrange as [Hrange|Hrange];
      apply andb_false_iff in Hrange as [?%Z.leb_gt|?%Z.leb_gt]; lia.
Qed.

(** The date validator accepts exactly the dates of the calendar, from
    year 0000 to year 9999, written YYYY-MM-DD. *)
Corollary valid_date_is_calendar_date (s : jsstring) :
  isValidDateString s = Normal true ↔ calendar_date s.
Proof.
  unfold calendar_date. split.
  - intros Hvalid.
    pose proof Hvalid as [(y & m & d & Hy & Hm & Hd & ->)%pattern_is_date_text _]%isValidDateString_rule.
    rewrite valid_of_numbers in Hvalid by done.
    injection Hvalid as Hok%bool_decide_eq_true. exists y, m, d. split; [lia|done].
  - intros (y & m & d & (Hy & Hm & Hd) & ->).
    pose proof (days_in_month_range y m).
    rewrite valid_of_numbers by lia. f_equal. apply bool_decide_eq_true. lia.
Qed.

End DateText.

(** ** The HTTP handlers *)

Lemma valid_date_not_empty (s : jsstring) :
  isValidDateString s = Normal true → falsy (Some s) = false.
Proof. destruct s; [|done]. vm_compute. discriminate. Qed.

Lemma date_param_unique query name s s' :
  date_param query name s → date_param query name s' → s = s'.
Proof. intros [H _] [H' _]. congruence. Qed.

Lemma readDateQueryParam_cases query name :
  (∃ s, date_param query name s ∧ readDateQueryParam query name = Normal (Some s))
  ∨ ((¬ ∃ s, date_param query name s) ∧ readDateQueryParam query name = Normal None).
Proof.
  unfold readDateQueryParam, date_param.
  destruct (query !! name) as [[s| |]|] eqn:Hq;
    try (right; split; [by intros (? & ? & _)|done]).
  destruct (isValidDateString_returns s) as [[] Hb]; rewrite Hb; simpl.
  - left. exists s. done.
  - right. split; [|done]. intros (s' & [= <-] & Hs). congruence.
Qed.

Lemma in_trendIntervals (s : jsstring) :
  s ∈ trendIntervals ↔ s = lit "DAY" ∨ s = lit "WEEK" ∨ s = lit "MONTH".
Proof. unfold trendIntervals. rewrite !elem_of_union, !elem_of_singleton. tauto. Qed.

Lemma interval_cases query :
  (∃ s, interval_param query s ∧ string_or_empty query (lit "interval") = s
        ∧ bool_decide (s ∈ trendIntervals) = true)
  ∨ ((¬ ∃ s, interval_param query s)
     ∧ bool_decide (string_or_empty query (lit "interval") ∈ trendIntervals) = false).
Proof.
  unfold string_or_empty, interval_param.
  destruct (query !! lit "interval") as [[s| |]|] eqn:Hq;
    try (right; split; [by intros (? & ? & _)|by vm_compute]).
  destruct (decide (s ∈ trendIntervals)) as [Hin|Hout].
  - left. exists s. split; [|split]; [|done|by apply bool_decide_eq_true].
    split; [done|]. by apply in_trendIntervals.
  - right. split; [|by apply bool_decide_eq_false].
    intros (s' & [= <-] & Hs). by apply Hout, in_trendIntervals.
Qed.

Lemma non_string_is_no_date query name :
  not_a_string query name → ¬ ∃ s, date_param query name s.
Proof. intros (q & Hq & Hnot) (s & Hs & _). rewrite Hq in Hs. injection Hs as ->. by eapply Hnot. Qed.

Lemma dailySummary_cases query :
  (∃ s, date_param query (lit "date") s
        ∧ dailySummary query = Normal (mkResponse 200 (daily_summary_body s)))
  ∨ ((¬ ∃ s, date_param query (lit "date") s)
     ∧ dailySummary query =
       Normal (mkResponse 400 (error_body (lit "Invalid or missing date query parameter")))).
Proof.
  unfold dailySummary, string_or_empty, date_param.
  destruct (query !! lit "date") as [[s| |]|] eqn:Hq;
    try (right; split; [by intros (? & ? & _)|by vm_compute]).
  destruct (isValidDateString_returns s) as [[] Hb]; rewrite Hb; simpl.
  - left. exists s. done.
  - right. split; [|done]. intros (s' & [= <-] & Hs). congruence.
Qed.

Lemma tierDistribution_cases query :
  (∃ s, date_param query (lit "date") s
        ∧ tierDistribution query = Normal (mkResponse 200 (tier_body s)))
  ∨ ((¬ ∃ s, date_param query (lit "date") s)
     ∧ tierDistribution query =
       Normal (mkResponse 400 (error_body (lit "Invalid query parameters")))).
Proof.
  unfold tierDistribution.
  destruct (readDateQueryParam_cases query (lit "date")) as [(s & Hs & ->)|[Hno ->]]; mstep.
  - left. exists s. split; [done|]. destruct Hs as [_ Hs].
    by rewrite (valid_date_not_empty _ Hs).
  - by right.
Qed.

Lemma ordersTrend_cases query :
  (∃ from to interval,
     date_param query (lit "from") from ∧ date_param query (lit "to") to
     ∧ interval_param query interval ∧ str_gt from to = false
     ∧ ordersTrend query = Normal (mkResponse 200 (trend_body from to interval)))
  ∨ ((¬ ∃ from to interval,
        date_param query (lit "from") from ∧ date_param query (lit "to") to
        ∧ interval_param query interval ∧ str_gt from to = false)
     ∧ ordersTrend query =
       Normal (mkResponse 400 (error_body (lit "Invalid query parameters")))).
Proof.
  unfold ordersTrend.
  destruct (readDateQueryParam_cases query (lit "from")) as [(from & Hfrom & ->)|[Hno ->]];
    mstep; cycle 1.
  { right. destruct (readDateQueryParam_cases query (lit "to")) as [(? & _ & ->)|[_ ->]];
      mstep; (split; [|done]); intros (f & _ & _ & Hf & _); apply Hno; eauto. }
  destruct (readDateQueryParam_cases query (lit "to")) as [(to & Hto & ->)|[Hno ->]];
    mstep; cycle 1.
  { right. split; [|by rewrite orb_true_r].
    intros (_ & t & _ & _ & Ht & _). apply Hno. eauto. }
  rewrite (valid_date_not_empty from), (valid_date_not_empty to);
    [|apply Hto|apply Hfrom].
  destruct (interval_cases query) as [(interval & Hinterval & -> & ->)|[Hno ->]];
    cycle 1.
  { right. split; [|done]. intros (_ & _ & i & _ & _ & Hi & _). apply Hno. eauto. }
  simpl. destruct (str_gt from to) eqn:Hgt.
  - right. split; [|done]. intros (f & t & _ & Hf & Ht & _ & Hle).
    rewrite (date_param_unique _ _ _ _ Hfrom Hf), (date_param_unique _ _ _ _ Hto Ht) in Hgt.
    congruence.
  - left. exists from, to, interval. done.
Qed.

(** The bodies that the handlers send, property by property. *)
Lemma error_body_is message :
  error_body message = JObj {[ lit "error" := JStr message ]}.
Proof. reflexivity. Qed.

Lemma daily_summary_body_is date :
  daily_summary_body date
  = JObj (list_to_map
            [(lit "date", JStr date); (lit "totalOrders", JNum (lit "125"));
             (lit "grossRevenue", JNum (lit "15675.5"));
             (lit "avgOrderValue", JNum (lit "125.4"))]).
Proof. reflexivity. Qed.

Lemma trend_body_is from to interval :
  trend_body from to interval
  = JObj (list_to_map
            [(lit "from", JStr from); (lit "to", JStr to);
             (lit "interval", JStr interval);
             (lit "points",
              JArr [JObj (list_to_map
                            [(lit "bucketStart", JStr from);
                             (lit "totalOrders", JNum (lit "120"));
                             (lit "grossRevenue", JNum (lit "15400.25"))])])]).
Proof. reflexivity. Qed.

Lemma tier_body_is date :
  tier_body date
  = JObj (list_to_map
            [(lit "date", JStr date);
             (lit "tiers",
              JArr [JObj (list_to_map [(lit "tier", JStr (lit "STANDARD"));
                                       (lit "customers", JNum (lit "950"))]);
                    JObj (list_to_map [(lit "tier", JStr (lit "GOLD"));
                                       (lit "customers", JNum (lit "320"))]);
                    JObj (list_to_map [(lit "tier", JStr (lit "PLATINUM"));
                                       (lit "customers", JNum (lit "80"))])])]).
Proof. reflexivity. Qed.



(** X12: in terms of the calendar, the daily-summary and the tier
    distribution handlers answer 200 exactly when [date] is a string
    that is a date of the calendar. *)
Corollary date_handlers_accept_calendar_dates (query : gmap (list N) QueryValue) :
  (answered (dailySummary query) = 200%Z
   ↔ ∃ s, query !! lit "date" = Some (QString s) ∧ calendar_date s)
  ∧ (answered (tierDistribution query) = 200%Z
     ↔ ∃ s, query !! lit "date" = Some (QString s) ∧ calendar_date s).
Proof.
  assert ((∃ s, date_param query (lit "date") s)
          ↔ ∃ s, query !! lit "date" = Some (QString s) ∧ calendar_date s) as <-.
  { unfold date_param. by setoid_rewrite valid_date_is_calendar_date. }
  split.
  - destruct (dailySummary_cases query) as [(s & Hs & ->)|[Hno ->]]; simpl.
    + split; eauto.
    + split; [discriminate|]. by intros ?%Hno.
  - destruct (tierDistribution_cases query) as [(s & Hs & ->)|[Hno ->]]; simpl.
    + split; eauto.
    + split; [discriminate|]. by intros ?%Hno.
Qed.

(** The three requests to the trend endpoint that the specification
    lists. *)
Remark trend_examples :
  answered (ordersTrend (qs [("from", QString (lit "2023-03-10"));
                             ("to", QString (lit "2023-03-01"));
                             ("interval", QString (lit "DAY"))])) = 400%Z
  ∧ answered (ordersTrend (qs [("from", QString (lit "2023-03-01"));
                               ("to", QString (lit "2023-03-10"));
                               ("interval", QString (lit "HOUR"))])) = 400%Z
  ∧ ordersTrend (qs [("from", QString (lit "2023-03-01"));
                     ("to", QString (lit "2023-03-10"));
                     ("interval", QString (lit "WEEK"))])
    = Normal (mkResponse 200 (trend_body (lit "2023-03-01") (lit "2023-03-10") (lit "WEEK"))).
Proof. repeat split; vm_compute; reflexivity. Qed.

(** The handler of the first revision answers 200 whatever the query
    is; without a [date] it answers with the day the clock shows. *)
Remark legacy_daily_summary_always_200 (now : Z) query :
  answered (legacyDailySummary now query) = 200%Z.
Proof.
  unfold legacyDailySummary. destruct (query !! lit "date") as [[]|]; reflexivity.
Qed.

(** C10: when a date parameter ([date], [from] or [to]) is there but is
    not a string, as when it is given more than once and arrives as an
    array, each of the three handlers answers 400 with its error body:
    it does not answer 200 and it does not raise. *)
Theorem non_string_date_param_rejected (query : gmap (list N) QueryValue) :
  (not_a_string query (lit "date") →
     dailySummary query =
       Normal (mkResponse 400 (error_body (lit "Invalid or missing date query parameter")))
     ∧ tierDistribution query =
       Normal (mkResponse 400 (error_body (lit "Invalid query parameters")))
     ∧ answered (dailySummary query) = 400%Z
     ∧ answered (tierDistribution query) = 400%Z)
  ∧ (not_a_string query (lit "from") ∨ not_a_string query (lit "to") →
     ordersTrend query =
       Normal (mkResponse 400 (error_body (lit "Invalid query parameters")))
     ∧ answered (ordersTrend query) = 400%Z).
Proof.
  split.
  - intros Hno%non_string_is_no_date.
    destruct (dailySummary_cases query) as [(s & Hs & _)|[_ ->]]; [exfalso; eauto|].
    destruct (tierDistribution_cases query) as [(s & Hs & _)|[_ ->]]; [exfalso; eauto|].
    done.
  - intros Hno.
    destruct (ordersTrend_cases query) as [(f & t & i & Hf & Ht & _)|[_ ->]]; [|done].
    exfalso. destruct Hno as [Hno%non_string_is_no_date|Hno%non_string_is_no_date]; eauto.
Qed.

Lemma non_string_date_param_rejected_witness :
  let twice := QArray [QString (lit "2023-03-15"); QString (lit "2023-03-16")] in
  answered (dailySummary (qs [("date", twice)])) = 400%Z
  ∧ answered (tierDistribution (qs [("date", twice)])) = 400%Z
  ∧ answered (ordersTrend (qs [("from", QString (lit "2023-03-01")); ("to", twice);
                               ("interval", QString (lit "DAY"))])) = 400%Z.
Proof.
  intros twice.
  assert (∀ s, twice ≠ QString s) as Hnot by (intros s; discriminate).
  destruct (non_string_date_param_rejected (qs [("date", twice)])) as [Hdate _].
  destruct (non_string_date_param_rejected
              (qs [("from", QString (lit "2023-03-01")); ("to", twice);
                   ("interval", QString (lit "DAY"))])) as [_ Hrange].
  destruct Hdate as (_ & _ & Hdaily & Htier).
  { exists twice. split; [vm_compute; reflexivity|exact Hnot]. }
  destruct Hrange as [_ Htrend].
  { right. exists twice. split; [vm_compute; reflexivity|exact Hnot]. }
  split; [exact Hdaily|split; [exact Htier|exact Htrend]].
Defined.
(** * Further properties of the code *)

(** ** The message handler: what is counted and what is logged *)

Section MessageExtras.

Local Open Scope Z_scope.

(** One message is counted once, or logged once, or, on a topic the
    service does not know, passed over. *)
Lemma on_message_outcome cfg topic buffer stats :
  ∃ stats' lines,
    on_message cfg topic buffer stats = Normal (stats', lines)
    ∧ ((lines = []
        ∧ ((topic = userNotificationTopic cfg
            ∧ stats' = {| received := received stats + 1;
                          ackDelivered := ackDelivered stats;
                          ackFailed := ackFailed stats |})
           ∨ (topic = notificationAckTopic cfg ∧ topic ≠ userNotificationTopic cfg
              ∧ (stats' = {| received := received stats;
                             ackDelivered := ackDelivered stats + 1;
                             ackFailed := ackFailed stats |}
                 ∨ stats' = {| received := received stats;
                               ackDelivered := ackDelivered stats;
                               ackFailed := ackFailed stats + 1 |}))))
       ∨ (stats' = stats ∧ ∃ line, lines = [line])
       ∨ (stats' = stats ∧ lines = [] ∧ ¬ subscribed cfg topic)).
Proof.
  destruct (decoded_or_not buffer) as [[v Hv]|[err Herr]]; cycle 1.
  { rewrite (on_message_undecoded _ _ _ _ _ Herr). do 2 eexists. split; [done|]. eauto. }
  rewrite (on_message_decoded _ _ _ _ _ Hv).
  destruct (is_null v); [do 2 eexists; split; [done|]; eauto|].
  destruct (str_eq topic (userNotificationTopic cfg)) eqn:Huser.
  { apply str_eq_spec in Huser.
    destruct (parseUserNotification v); do 2 eexists; (split; [done|]); eauto 10. }
  assert (topic ≠ userNotificationTopic cfg) as Hne
    by (intros ->; by rewrite str_eq_refl in Huser).
  destruct (str_eq topic (notificationAckTopic cfg)) eqn:Hack.
  { apply str_eq_spec in Hack.
    destruct (parseDeliveryAck v) as [event|]; [|do 2 eexists; split; [done|]; eauto].
    destruct (str_eq (ack_status event) (lit "DELIVERED"));
      do 2 eexists; (split; [done|]); left; (split; [done|]); right; eauto. }
  do 2 eexists. split; [done|]. right. right. split; [done|]. split; [done|].
  intros [->| ->]; by rewrite str_eq_refl in *.
Qed.

(** X1: whatever the topic and the payload, the message handler runs to
    its end; no counter goes down; the events counted and the lines
    logged grow by at most one together; a message that leaves a line
    in the log leaves the counters as they were; and on a topic the
    client subscribes to, the message is either counted once or logged
    once. *)
Theorem message_counted_or_logged cfg topic buffer stats :
  ∃ stats' lines,
    on_message cfg topic buffer stats = Normal (stats', lines)
    ∧ stats_le stats stats'
    ∧ counted stats' + Z.of_nat (length lines) ≤ counted stats + 1
    ∧ (lines ≠ [] → stats' = stats)
    ∧ (subscribed cfg topic →
       counted stats' + Z.of_nat (length lines) = counted stats + 1).
Proof.
  destruct (on_message_outcome cfg topic buffer stats) as (stats' & lines & Hrun & Hcases).
  exists stats', lines. split; [done|]. unfold stats_le, counted.
  destruct Hcases as [[-> Hcount]|[[-> [line ->]]|(-> & -> & Hno)]].
  - destruct Hcount as [[_ ->]|(_ & _ & [->| ->])]; simpl; repeat split; lia || done.
  - simpl. repeat split; lia || done.
  - simpl. repeat split; lia || done.
Qed.

Lemma message_counted_or_logged_witness :
  ∃ stats' lines,
    on_message default_config (lit "notification/user") (payload "{'notificationId':")
      notificationStats = Normal (stats', lines)
    ∧ counted stats' + Z.of_nat (length lines) = counted notificationStats + 1.
Proof.
  destruct (message_counted_or_logged default_config (lit "notification/user")
              (payload "{'notificationId':") notificationStats)
    as (stats' & lines & Hrun & _ & _ & _ & Hsum).
  exists stats', lines. split; [exact Hrun|]. apply Hsum. left. reflexivity.
Defined.

Lemma dispatch_accounts cfg loop loop' :
  dispatch cfg loop loop' →
  accounted loop' ≤ accounted loop
  ∧ (Forall (λ m, subscribed cfg (msg_topic m)) (pending loop) →
     accounted loop' = accounted loop
     ∧ Forall (λ m, subscribed cfg (msg_topic m)) (pending loop'))
  ∧ console loop `prefix_of` console loop'.
Proof.
  intros [before m after stats out stats' lines Hrun]. unfold accounted. simpl.
  destruct (on_message_outcome cfg (msg_topic m) (msg_payload m) stats)
    as (s & l & Hrun' & Hcases).
  rewrite Hrun in Hrun'. injection Hrun' as <- <-.
  rewrite !length_app. simpl length. split; [|split].
  - unfold counted.
    destruct Hcases as [[-> Hcount]|[[-> [line ->]]|(-> & -> & Hno)]].
    + destruct Hcount as [[_ ->]|(_ & _ & [->| ->])]; simpl; lia.
    + simpl. lia.
    + simpl. lia.
  - intros Hall. apply Forall_app in Hall as [Hbefore Hall].
    apply Forall_cons in Hall as [Hm Hafter].
    split; [|by apply Forall_app].
    unfold counted.
    destruct Hcases as [[-> Hcount]|[[-> [line ->]]|(-> & -> & Hno)]].
    + destruct Hcount as [[_ ->]|(_ & _ & [->| ->])]; simpl; lia.
    + simpl. lia.
    + done.
  - by apply prefix_app_r.
Qed.

(** X2: over any run of the event loop, the events counted, the lines
    logged and the messages still waiting never add up to more than
    they did at the start; when every waiting message is on a
    subscribed topic they add up to exactly the same, so every message
    handled is counted or logged; and the log only grows at its end. *)
Theorem run_accounts_for_every_message cfg loop loop' :
  rtc (dispatch cfg) loop loop' →
  accounted loop' ≤ accounted loop
  ∧ (Forall (λ m, subscribed cfg (msg_topic m)) (pending loop) →
     accounted loop' = accounted loop)
  ∧ console loop `prefix_of` console loop'.
Proof.
  intros Hrun.
  enough (accounted loop' ≤ accounted loop
          ∧ (Forall (λ m, subscribed cfg (msg_topic m)) (pending loop) →
             accounted loop' = accounted loop
             ∧ Forall (λ m, subscribed cfg (msg_topic m)) (pending loop'))
          ∧ console loop `prefix_of` console loop') as (? & Heq & ?).
  { split; [done|]. split; [|done]. intros Hall. by apply Heq. }
  induction Hrun as [loop|loop mid loop' Hstep _ (IHle & IHeq & IHlog)].
  - done.
  - destruct (dispatch_accounts _ _ _ Hstep) as (Hle & Heq & Hlog).
    split; [lia|]. split; [|by etrans].
    intros Hall. destruct (Heq Hall) as [Heq1 Hall1].
    destruct (IHeq Hall1) as [Heq2 Hall2]. split; [lia|done].
Qed.

Lemma run_accounts_for_every_message_witness :
  let m1 := mkMessage (lit "notification/user") (payload sample_user_text) in
  let m2 := mkMessage (lit "notification/ack") (payload "{'status':") in
  accounted (mkLoop [] {| received := 1; ackDelivered := 0; ackFailed := 0 |}
               [log_non_json (lit "notification/ack")])
  = accounted (mkLoop [m1; m2] notificationStats []).
Proof.
  intros m1 m2.
  pose (s1 := {| received := 1; ackDelivered := 0; ackFailed := 0 |}).
  assert (rtc (dispatch default_config) (mkLoop [m1; m2] notificationStats [])
            (mkLoop [] s1 [log_non_json (lit "notification/ack")])) as Hrun.
  { eapply rtc_l.
    { apply (dispatch_one default_config [m1] m2 [] notificationStats [] notificationStats
               [log_non_json (lit "notification/ack")]).
      vm_compute. reflexivity. }
    eapply rtc_l; [|apply rtc_refl].
    apply (dispatch_one default_config [] m1 [] notificationStats
             [log_non_json (lit "notification/ack")] s1 []).
    vm_compute. reflexivity. }
  destruct (run_accounts_for_every_message default_config _ _ Hrun) as (_ & Heq & _).
  apply Heq. simpl.
  constructor; [left; reflexivity|]. constructor; [right; reflexivity|]. constructor.
Defined.

(** X3: [received] moves only on a message of the user-notification
    topic, and the two acknowledgement counters move only on a message
    of the acknowledgement topic that is not also the user-notification
    topic.  So when both topics are configured with one name, no run of
    the loop ever moves an acknowledgement counter. *)
Theorem counters_move_only_on_their_topic cfg :
  (∀ topic buffer stats stats' lines,
     on_message cfg topic buffer stats = Normal (stats', lines) →
     (received stats' ≠ received stats → topic = userNotificationTopic cfg)
     ∧ (ackDelivered stats' ≠ ackDelivered stats ∨ ackFailed stats' ≠ ackFailed stats →
        topic = notificationAckTopic cfg ∧ topic ≠ userNotificationTopic cfg))
  ∧ (userNotificationTopic cfg = notificationAckTopic cfg →
     ∀ loop loop',
       rtc (dispatch cfg) loop loop' →
       ackDelivered (stats_now loop') = ackDelivered (stats_now loop)
       ∧ ackFailed (stats_now loop') = ackFailed (stats_now loop)).
Proof.
  assert (∀ topic buffer stats stats' lines,
     on_message cfg topic buffer stats = Normal (stats', lines) →
     (received stats' ≠ received stats → topic = userNotificationTopic cfg)
     ∧ (ackDelivered stats' ≠ ackDelivered stats ∨ ackFailed stats' ≠ ackFailed stats →
        topic = notificationAckTopic cfg ∧ topic ≠ userNotificationTopic cfg)) as Hone.
  { intros topic buffer stats stats' lines Hrun.
    destruct (on_message_outcome cfg topic buffer stats) as (s & l & Hrun' & Hcases).
    rewrite Hrun in Hrun'. injection Hrun' as <- <-.
    destruct Hcases as [[_ Hcount]|[[-> _]|(-> & _)]]; [|split; intros; lia..].
    destruct Hcount as [[? ->]|(? & ? & [->| ->])]; simpl; split; intros; done || lia. }
  split; [exact Hone|].
  intros Hsame loop loop' Hrun.
  induction Hrun as [loop|loop mid loop' Hstep _ [IHd IHf]]; [done|].
  rewrite IHd, IHf. destruct Hstep as [before m after stats out stats' lines Hrun]. simpl.
  destruct (Hone _ _ _ _ _ Hrun) as [_ Hack].
  destruct (Z.eq_dec (ackDelivered stats') (ackDelivered stats)) as [->|Hd];
    destruct (Z.eq_dec (ackFailed stats') (ackFailed stats)) as [->|Hf]; [done|..];
    destruct Hack as [Htopic Hne]; auto; congruence.
Qed.

Lemma counters_move_only_on_their_topic_witness :
  let cfg := mkConfig (lit "events") (lit "events") in
  let m := mkMessage (lit "events") (payload (sample_ack_text "DELIVERED")) in
  let before := mkLoop [m] notificationStats [] in
  let after := mkLoop [] notificationStats [log_invalid_user (lit "events")] in
  ackDelivered (stats_now after) = ackDelivered (stats_now before)
  ∧ ackFailed (stats_now after) = ackFailed (stats_now before).
Proof.
  intros cfg m before after.
  destruct (counters_move_only_on_their_topic cfg) as [_ Hsame].
  apply (Hsame eq_refl (mkLoop [m] notificationStats [])
           (mkLoop [] notificationStats [log_invalid_user (lit "events")])).
  eapply rtc_l; [|apply rtc_refl].
  apply (dispatch_one cfg [] m [] notificationStats [] notificationStats
           [log_invalid_user (lit "events")]).
  vm_compute. reflexivity.
Defined.

End MessageExtras.

(** ** The acknowledgement validator *)

Lemma in_ack_fields (k : jsstring) :
  bool_decide (k ∈ ack_fields) = true → k ∈ ack_fields.
Proof. apply bool_decide_eq_true_1. Qed.

Lemma not_in_ack_fields (k : jsstring) :
  bool_decide (k ∈ ack_fields) = false → k ∉ ack_fields.
Proof. apply bool_decide_eq_false_1. Qed.

(** X4: [parseDeliveryAck] reads the properties [requestId],
    [notificationId], [acknowledgedAt], [status] and [failureReason]
    and no other: two keyed structures that agree on these five get
    the same answer. *)
Theorem ack_validator_reads_five_fields (props props' : gmap (list N) Json) :
  (∀ k, k ∈ ack_fields → props !! k = props' !! k) →
  parseDeliveryAck (JObj props) = parseDeliveryAck (JObj props').
Proof.
  intros Hsame. unfold parseDeliveryAck. simpl.
  rewrite !Hsame; [done|..]; apply in_ack_fields; vm_compute; reflexivity.
Qed.

Lemma ack_validator_reads_five_fields_witness :
  parseDeliveryAck (JObj (<[ lit "traceId" := JNull ]> (sample_ack_fields "FAILED")))
  = parseDeliveryAck (JObj (sample_ack_fields "FAILED")).
Proof.
  apply ack_validator_reads_five_fields.
  intros k Hk. apply lookup_insert_ne. intros <-.
  revert Hk. apply not_in_ack_fields. vm_compute. reflexivity.
Defined.

(** ** Payloads with a byte order mark *)

(** X5: [Buffer.toString] keeps a byte order mark and [JSON.parse] does
    not take it for white space, so a payload that starts with the
    bytes EF BB BF is reported as not JSON and is never counted,
    whatever follows the mark. *)
Theorem byte_order_mark_is_not_json cfg topic (rest : list byte) stats :
  JSON.parse (Utf8.toString ([xef; xbb; xbf]%byte ++ rest)) = Throw SyntaxError
  ∧ on_message cfg topic ([xef; xbb; xbf]%byte ++ rest) stats
    = Normal (stats, [log_non_json topic]).
Proof.
  assert (JSON.parse (Utf8.toString ([xef; xbb; xbf]%byte ++ rest)) = Throw SyntaxError)
    as Hparse by reflexivity.
  split; [done|]. by eapply on_message_undecoded.
Qed.

(** ** The calendar, from days back to dates *)

(** Decide the comparisons between constants that are in the goal. *)
Ltac compute_tests :=
  repeat match goal with
    | |- context [Z.eqb ?a ?b] =>
        let v := eval vm_compute in (Z.eqb a b) in
        change (Z.eqb a b) with v; cbv iota
    | |- context [Z.leb ?a ?b] =>
        let v := eval vm_compute in (Z.leb a b) in
        change (Z.leb a b) with v; cbv iota
    | |- context [Z.ltb ?a ?b] =>
        let v := eval vm_compute in (Z.ltb a b) in
        change (Z.ltb a b) with v; cbv iota
    end.

Section CalendarOrder.

Local Open Scope Z_scope.

(** The day of a 400-year era split into a year of the era and a day of
    that year, counted from the first of March. *)
Lemma era_split doe :
  0 ≤ doe < 146097 →
  let yoe := (doe - doe / 1460 + doe / 36524 - doe / 146096) / 365 in
  let doy := doe - (365 * yoe + yoe / 4 - yoe / 100) in
  0 ≤ yoe < 400
  ∧ 0 ≤ doy ≤ 365
  ∧ (doy ≤ 364 ∨ (doy = 365 ∧ (yoe + 1) mod 4 = 0 ∧ ((yoe + 1) mod 100 ≠ 0 ∨ yoe = 399))).
Proof.
  intros Hdoe yoe doy. subst doy yoe.
  repeat split; Z.div_mod_to_equations; lia.
Qed.

(** [civil] always gives a date of the calendar. *)
Lemma civil_valid day Y M D :
  JsDate.civil day = (Y, M, D) → 1 ≤ M ≤ 12 ∧ 1 ≤ D ≤ days_in_month Y M.
Proof.
  unfold JsDate.civil.
  set (z := day + 719468). set (era := z / 146097). set (doe := z mod 146097).
  assert (0 ≤ doe < 146097) as Hdoe by (subst doe; apply Z.mod_pos_bound; lia).
  destruct (era_split doe Hdoe) as (Hyoe & Hdoy & Hleap). revert Hyoe Hdoy Hleap.
  set (yoe := (doe - doe / 1460 + doe / 36524 - doe / 146096) / 365).
  set (doy := doe - (365 * yoe + yoe / 4 - yoe / 100)).
  cbv zeta. intros Hyoe Hdoy Hleap.
  set (mp := (5 * doy + 2) / 153).
  assert (0 ≤ mp ≤ 11 ∧ 153 * mp ≤ 5 * doy + 2 < 153 * mp + 153) as [Hmp Hmp'].
  { subst mp. Z.div_mod_to_equations. lia. }
  clearbody mp yoe doy era. clear Hdoe doe z.
  intros [= <- <- <-].
  assert (mp = 0 ∨ mp = 1 ∨ mp = 2 ∨ mp = 3 ∨ mp = 4 ∨ mp = 5 ∨ mp = 6 ∨ mp = 7
          ∨ mp = 8 ∨ mp = 9 ∨ mp = 10 ∨ mp = 11)
    as [->|[->|[->|[->|[->|[->|[->|[->|[->|[->|[->| ->]]]]]]]]]]] by lia;
    compute_tests; unfold days_in_month; compute_tests; simpl orb; cbv iota;
    try (split; [lia|]; Z.div_mod_to_equations; lia).
  split; [lia|].
  destruct (leap_cases (yoe + era * 400 + 1)) as [[-> Hl]|[-> Hl]];
    Z.div_mod_to_equations; lia.
Qed.

(** The years of four digits are the days from 0000-01-01 to
    9999-12-31. *)
Lemma civil_year_range day Y M D :
  JsDate.civil day = (Y, M, D) → -719528 ≤ day ≤ 2932896 → 0 ≤ Y ≤ 9999.
Proof.
  unfold JsDate.civil.
  set (z := day + 719468). set (era := z / 146097). set (doe := z mod 146097).
  assert (0 ≤ doe < 146097) as Hdoe by (subst doe; apply Z.mod_pos_bound; lia).
  destruct (era_split doe Hdoe) as (Hyoe & Hdoy & _). revert Hyoe Hdoy.
  set (yoe := (doe - doe / 1460 + doe / 36524 - doe / 146096) / 365).
  set (doy := doe - (365 * yoe + yoe / 4 - yoe / 100)).
  cbv zeta. intros Hyoe Hdoy.
  set (mp := (5 * doy + 2) / 153).
  intros [= <- _ _] Hday.
  assert (z = 146097 * era + doe) as Hz by (subst era doe; apply Z.div_mod; lia).
  assert (-1 ≤ era ≤ 24) as Hera by lia.
  assert (era = -1 → yoe = 399 ∧ 306 ≤ doy) as Hlow.
  { intros He. subst yoe doy. split; Z.div_mod_to_equations; lia. }
  assert (era = 24 → yoe = 399 → doy ≤ 305) as Hhigh.
  { intros He Hy. subst doy. rewrite Hy. change (399 / 4) with 99. change (399 / 100) with 3.
    lia. }
  assert (0 ≤ mp ≤ 11) by (subst mp; Z.div_mod_to_equations; lia).
  destruct (Z.ltb_spec mp 10) as [Hmp|Hmp].
  - assert (doy ≤ 305) by (subst mp; Z.div_mod_to_equations; lia).
    replace (mp + 3 <=? 2) with false by (symmetry; apply Z.leb_gt; lia). lia.
  - assert (306 ≤ doy) by (subst mp; Z.div_mod_to_equations; lia).
    replace (mp - 9 <=? 2) with true by (symmetry; apply Z.leb_le; lia). lia.
Qed.

(** The ISO form of a time value starts with the text of the date that
    [civil] gives for its day. *)
Lemma iso_of_time t Y M D :
  JsDate.civil (JsDate.Day t) = (Y, M, D) → 0 ≤ Y ≤ 9999 →
  ∃ rest, JsDate.toISOString (Some t) = Normal (date_text Y M D ++ rest).
Proof.
  intros Hcivil HY. unfold JsDate.toISOString.
  unfold JsDate.YearFromTime, JsDate.MonthFromTime, JsDate.DateFromTime.
  rewrite Hcivil. simpl fst. simpl snd.
  unfold JsDate.year_text, JsDate.between.
  assert ((0 <=? Y) && (Y <=? 9999) = true) as ->
    by (apply andb_true_iff; split; apply Z.leb_le; lia).
  rewrite Z.sub_add. unfold date_text.
  eexists. rewrite <- !app_assoc. reflexivity.
Qed.

(** The first ten characters of the ISO form of a time value in the
    years of four digits pass the date validator. *)
Lemma iso_date_is_valid t :
  -62167219200000 ≤ t ≤ 253402300799999 →
  ∃ iso, JsDate.toISOString (Some t) = Normal iso
         ∧ isValidDateString (slice0 10 iso) = Normal true.
Proof.
  intros Ht.
  destruct (JsDate.civil (JsDate.Day t)) as [[Y M] D] eqn:Hcivil.
  assert (-719528 ≤ JsDate.Day t ≤ 2932896) as Hday.
  { unfold JsDate.Day, JsDate.msPerDay. Z.div_mod_to_equations. lia. }
  pose proof (civil_year_range _ _ _ _ Hcivil Hday) as HY.
  destruct (civil_valid _ _ _ _ Hcivil) as [HM HD].
  destruct (iso_of_time _ _ _ _ Hcivil HY) as [rest ->].
  eexists. split; [reflexivity|].
  unfold slice0. rewrite take_app_length' by (by rewrite length_date_text).
  pose proof (days_in_month_range Y M).
  rewrite valid_of_numbers by lia. f_equal. apply bool_decide_eq_true. lia.
Qed.

(** A year is 365 or 366 days long, and later years start later. *)
Lemma DayFromYear_lt y y' :
  y < y' →
  JsDate.DayFromYear y + 365 + (if JsDate.InLeapYear y then 1 else 0)
  ≤ JsDate.DayFromYear y'.
Proof.
  intros Hlt. unfold JsDate.DayFromYear.
  destruct (leap_cases y) as [[-> Hl]|[-> Hl]]; Z.div_mod_to_equations; lia.
Qed.

(** The day of the year of a date of the calendar. *)
Lemma day_of_year_range y m d :
  1 ≤ m ≤ 12 → 1 ≤ d ≤ days_in_month y m →
  1 ≤ JsDate.DaysBeforeMonth (JsDate.InLeapYear y) (m - 1) + d
    ≤ 365 + (if JsDate.InLeapYear y then 1 else 0).
Proof.
  intros Hm. unfold days_in_month, JsDate.DaysBeforeMonth.
  destruct (JsDate.InLeapYear y);
    destruct (month_cases m Hm) as [->|[->|[->|[->|[->|[->|[->|[->|[->|[->|[->| ->]]]]]]]]]]];
    compute_tests; simpl orb; cbv iota; lia.
Qed.

(** A month ends before the next one starts. *)
Lemma day_of_year_lt y m d m' d' :
  1 ≤ m → m < m' → m' ≤ 12 → d ≤ days_in_month y m → 1 ≤ d' →
  JsDate.DaysBeforeMonth (JsDate.InLeapYear y) (m - 1) + d
  < JsDate.DaysBeforeMonth (JsDate.InLeapYear y) (m' - 1) + d'.
Proof.
  intros Hm Hlt Hm' Hd Hd'. revert Hd. unfold days_in_month, JsDate.DaysBeforeMonth.
  destruct (JsDate.InLeapYear y);
    destruct (month_cases m ltac:(lia)) as [->|[->|[->|[->|[->|[->|[->|[->|[->|[->|[->| ->]]]]]]]]]]];
    destruct (month_cases m' ltac:(lia)) as [->|[->|[->|[->|[->|[->|[->|[->|[->|[->|[->| ->]]]]]]]]]]];
    try lia; compute_tests; simpl orb; cbv iota; lia.
Qed.

Lemma MakeDay_of_month y m d :
  1 ≤ m ≤ 12 →
  JsDate.MakeDay y (m - 1) d
  = JsDate.DayFromYear y + JsDate.DaysBeforeMonth (JsDate.InLeapYear y) (m - 1) + d - 1.
Proof.
  intros Hm. unfold JsDate.MakeDay.
  replace ((m - 1) / 12) with 0 by (Z.div_mod_to_equations; lia).
  replace ((m - 1) mod 12) with (m - 1) by (Z.div_mod_to_equations; lia).
  by rewrite Z.add_0_r.
Qed.

(** Day numbers follow the order of the calendar. *)
Lemma MakeDay_lt y m d y' m' d' :
  1 ≤ m ≤ 12 → 1 ≤ d ≤ days_in_month y m →
  1 ≤ m' ≤ 12 → 1 ≤ d' ≤ days_in_month y' m' →
  earlier (y, m, d) (y', m', d') →
  JsDate.MakeDay y (m - 1) d < JsDate.MakeDay y' (m' - 1) d'.
Proof.
  intros Hm Hd Hm' Hd' Hlt. rewrite !MakeDay_of_month by done.
  pose proof (day_of_year_range y m d Hm Hd).
  pose proof (day_of_year_range y' m' d' Hm' Hd').
  destruct Hlt as [Hy|[<- [Hlt|[<- Hlt]]]].
  - pose proof (DayFromYear_lt y y' Hy). lia.
  - pose proof (day_of_year_lt y m d m' d'). lia.
  - lia.
Qed.

Lemma earlier_cases a b : earlier a b ∨ a = b ∨ earlier b a.
Proof.
  destruct a as [[y m] d], b as [[y' m'] d']. unfold earlier.
  destruct (Z.lt_trichotomy y y') as [?|[->|?]]; [lia| |lia].
  destruct (Z.lt_trichotomy m m') as [?|[->|?]]; [lia| |lia].
  destruct (Z.lt_trichotomy d d') as [?|[->|?]]; [lia| |lia].
  auto.
Qed.

Lemma MakeDay_lt_iff y m d y' m' d' :
  1 ≤ m ≤ 12 → 1 ≤ d ≤ days_in_month y m →
  1 ≤ m' ≤ 12 → 1 ≤ d' ≤ days_in_month y' m' →
  JsDate.MakeDay y (m - 1) d < JsDate.MakeDay y' (m' - 1) d'
  ↔ earlier (y, m, d) (y', m', d').
Proof.
  intros Hm Hd Hm' Hd'. split; [|by apply MakeDay_lt].
  intros Hlt. destruct (earlier_cases (y, m, d) (y', m', d')) as [H|[[= <- <- <-]|H]].
  - done.
  - lia.
  - apply MakeDay_lt in H; [lia|done..].
Qed.

Lemma digit_char_ltb a b :
  0 ≤ a ≤ 9 → 0 ≤ b ≤ 9 →
  (JsDate.digit_char a <? JsDate.digit_char b)%N = (a <? b).
Proof.
  intros Ha Hb. unfold JsDate.digit_char.
  destruct (Z.ltb_spec a b); [apply N.ltb_lt|apply N.ltb_ge]; lia.
Qed.

(** On the texts of dates, the order of strings is the order of the
    calendar. *)
Lemma str_gt_date_text y m d y' m' d' :
  0 ≤ y ≤ 9999 → 0 ≤ m ≤ 99 → 0 ≤ d ≤ 99 →
  0 ≤ y' ≤ 9999 → 0 ≤ m' ≤ 99 → 0 ≤ d' ≤ 99 →
  str_gt (date_text y m d) (date_text y' m' d') = true
  ↔ earlier (y', m', d') (y, m, d).
Proof.
  intros (a & b & c & e & ? & ? & ? & ? & ->)%four_digits
         (m1 & m2 & ? & ? & ->)%two_digits (d1 & d2 & ? & ? & ->)%two_digits
         (a' & b' & c' & e' & ? & ? & ? & ? & ->)%four_digits
         (m1' & m2' & ? & ? & ->)%two_digits (d1' & d2' & ? & ? & ->)%two_digits.
  unfold date_text, earlier. rewrite !pad4_chars, !pad2_chars by done.
  cbn [app str_gt]. rewrite !digit_char_ltb by done.
  change (45 <? 45)%N with false. cbv iota.
  repeat match goal with
    | |- context [Z.ltb ?u ?v] => destruct (Z.ltb_spec u v)
    end; (split; [try discriminate|try reflexivity]); intros; lia.
Qed.

End CalendarOrder.

(** ** The date validator and the order of dates *)

Section DateExtras.

Local Open Scope Z_scope.

(** [Date.parse] on a date of the calendar followed by midnight UTC. *)
Lemma parse_calendar_date y m d :
  0 ≤ y ≤ 9999 → 1 ≤ m ≤ 12 → 1 ≤ d ≤ days_in_month y m →
  JsDate.parse (date_text y m d ++ lit "T00:00:00.000Z")
  = Some (JsDate.MakeDay y (m - 1) d * JsDate.msPerDay).
Proof.
  intros Hy Hm Hd. pose proof (days_in_month_range y m).
  rewrite parse_date_text by lia.
  assert (JsDate.between 1 12 m && JsDate.between 1 31 d = true) as ->.
  { unfold JsDate.between. rewrite !andb_true_iff, !Z.leb_le. lia. }
  pose proof (MakeDay_bounds y m d ltac:(lia) ltac:(lia) ltac:(lia)).
  unfold JsDate.TimeClip, JsDate.MakeDate.
  assert ((Z.abs (JsDate.MakeDay y (m - 1) d * JsDate.msPerDay + 0) <=? 8640000000000000)
          = true) as -> by (apply Z.leb_le; unfold JsDate.msPerDay; lia).
  by rewrite Z.add_0_r.
Qed.

(** X6: [isValidDateString] answers true on the dates of the calendar
    from year 0000 to year 9999 written YYYY-MM-DD, with the month in
    01..12 and the day within the month, and false on every other
    string. *)
Theorem date_validator_decides_calendar (s : jsstring) :
  (isValidDateString s = Normal true ↔ calendar_date s)
  ∧ (isValidDateString s = Normal false ↔ ¬ calendar_date s).
Proof.
  split; [apply valid_date_is_calendar_date|].
  rewrite <- valid_date_is_calendar_date.
  destruct (isValidDateString_returns s) as [[] ->]; split; congruence.
Qed.

(** X7: the 29th of February of a year is valid exactly when the year
    is a leap year: divisible by 4, and not by 100 unless by 400. *)
Theorem leap_day_valid_in_leap_years (y : Z) :
  0 ≤ y ≤ 9999 →
  isValidDateString (date_text y 2 29)
  = Normal (bool_decide (y mod 4 = 0 ∧ (y mod 100 ≠ 0 ∨ y mod 400 = 0))).
Proof.
  intros Hy. rewrite valid_of_numbers by lia. f_equal.
  apply bool_decide_ext. unfold days_in_month. compute_tests.
  destruct (leap_cases y) as [[-> Hl]|[-> Hl]]; lia.
Qed.

Lemma leap_day_valid_in_leap_years_witness :
  isValidDateString (lit "2024-02-29") = Normal true
  ∧ isValidDateString (lit "1900-02-29") = Normal false
  ∧ isValidDateString (lit "2000-02-29") = Normal true.
Proof.
  split; [|split].
  - apply (leap_day_valid_in_leap_years 2024). lia.
  - apply (leap_day_valid_in_leap_years 1900). lia.
  - apply (leap_day_valid_in_leap_years 2000). lia.
Defined.

(** Two valid date strings compare as strings the way the days they
    name compare in time. *)
Lemma valid_dates_order (from to : jsstring) :
  isValidDateString from = Normal true → isValidDateString to = Normal true →
  ∃ tf tt,
    JsDate.parse (from ++ lit "T00:00:00.000Z") = Some tf
    ∧ JsDate.parse (to ++ lit "T00:00:00.000Z") = Some tt
    ∧ (str_gt from to = true ↔ tt < tf)
    ∧ (from = to ↔ tf = tt).
Proof.
  intros (y & m & d & (Hy & Hm & Hd) & ->)%valid_date_is_calendar_date
         (y' & m' & d' & (Hy' & Hm' & Hd') & ->)%valid_date_is_calendar_date.
  pose proof (days_in_month_range y m). pose proof (days_in_month_range y' m').
  rewrite !parse_calendar_date by done.
  do 2 eexists. split; [done|]. split; [done|]. split.
  - rewrite str_gt_date_text by lia.
    rewrite <- MakeDay_lt_iff by done. unfold JsDate.msPerDay. lia.
  - split.
    + intros Heq. apply date_text_inj in Heq as (-> & -> & ->); [done|lia..].
    + intros Heq.
      destruct (earlier_cases (y, m, d) (y', m', d')) as [Hlt|[[= <- <- <-]|Hlt]]; [|done|];
        apply MakeDay_lt in Hlt; try done; unfold JsDate.msPerDay in Heq; lia.
Qed.

(** X8: the trend handler compares [from] and [to] as strings; on two
    valid dates that is the comparison of the days they name.  With
    valid [from], [to] and [interval], the handler answers 200 exactly
    when the day of [from] is not after the day of [to], and 400
    exactly when it is after. *)
Theorem trend_range_is_chronological query from to interval :
  date_param query (lit "from") from → date_param query (lit "to") to →
  interval_param query interval →
  ∃ tf tt,
    JsDate.parse (from ++ lit "T00:00:00.000Z") = Some tf
    ∧ JsDate.parse (to ++ lit "T00:00:00.000Z") = Some tt
    ∧ (str_gt from to = true ↔ tt < tf)
    ∧ (ordersTrend query = Normal (mkResponse 200 (trend_body from to interval)) ↔ tf ≤ tt)
    ∧ (ordersTrend query = Normal (mkResponse 400 (error_body (lit "Invalid query parameters")))
       ↔ tt < tf).
Proof.
  intros Hfrom Hto Hinterval.
  destruct (valid_dates_order from to) as (tf & tt & Hf & Ht & Hgt & _);
    [apply Hfrom|apply Hto|].
  exists tf, tt. split; [done|]. split; [done|]. split; [done|].
  destruct (ordersTrend_cases query) as [(f & t & i & Hf' & Ht' & Hi' & Hle & ->)|[Hno ->]].
  - rewrite (date_param_unique _ _ _ _ Hfrom Hf'), (date_param_unique _ _ _ _ Hto Ht') in *.
    assert (interval = i) as -> by (destruct Hinterval as [Hq _], Hi' as [Hq' _]; congruence).
    assert (¬ tt < tf) by (rewrite <- Hgt; congruence).
    split; split; (done || lia || discriminate).
  - assert (str_gt from to = true) as Htrue.
    { destruct (str_gt from to) eqn:E; [done|]. exfalso. apply Hno. eauto 10. }
    apply Hgt in Htrue. split; split; (done || lia || discriminate).
Qed.

Lemma trend_range_is_chronological_witness :
  ∃ tf tt,
    JsDate.parse (lit "2023-03-01" ++ lit "T00:00:00.000Z") = Some tf
    ∧ JsDate.parse (lit "2023-03-10" ++ lit "T00:00:00.000Z") = Some tt
    ∧ tf ≤ tt.
Proof.
  destruct (trend_range_is_chronological
              (qs [("from", QString (lit "2023-03-01")); ("to", QString (lit "2023-03-10"));
                   ("interval", QString (lit "WEEK"))])
              (lit "2023-03-01") (lit "2023-03-10") (lit "WEEK"))
    as (tf & tt & Hf & Ht & _ & Hok & _).
  - split; vm_compute; reflexivity.
  - split; vm_compute; reflexivity.
  - split; [vm_compute; reflexivity|]. right. left. reflexivity.
  - exists tf, tt. split; [exact Hf|]. split; [exact Ht|].
    apply Hok. vm_compute. reflexivity.
Defined.

End DateExtras.

(** ** The HTTP handlers, again *)

(** X9: [readDateQueryParam] returns the parameter exactly when it is a
    string that is a date of the calendar and [null] in every other
    case; it never returns the empty string, so the test [!date] of the
    handlers is the test for [null]. *)
Theorem readDateQueryParam_gives_calendar_date query name :
  (∀ s, readDateQueryParam query name = Normal (Some s)
        ↔ query !! name = Some (QString s) ∧ calendar_date s)
  ∧ (readDateQueryParam query name = Normal None
     ↔ ¬ ∃ s, query !! name = Some (QString s) ∧ calendar_date s)
  ∧ readDateQueryParam query name ≠ Normal (Some []).
Proof.
  assert (∀ s, date_param query name s ↔ query !! name = Some (QString s) ∧ calendar_date s)
    as Hparam.
  { intros s. unfold date_param. by rewrite valid_date_is_calendar_date. }
  destruct (readDateQueryParam_cases query name) as [(s & Hs & ->)|[Hno ->]].
  - split; [|split].
    + intros s'. rewrite <- Hparam. split.
      * by intros [= <-].
      * intros Hs'. by rewrite (date_param_unique _ _ _ _ Hs Hs').
    + split; [discriminate|]. intros []. exists s. by apply Hparam.
    + intros [= ->]. destruct Hs as [_ Hs]. vm_compute in Hs. discriminate.
  - split; [|split].
    + intros s. rewrite <- Hparam. split; [discriminate|]. intros Hs. destruct Hno. eauto.
    + split; [|done]. intros _ (s & Hs%Hparam). apply Hno. eauto.
    + discriminate.
Qed.

(** X10: whatever the query, none of the three handlers raises: each
    answers 200, or 400 with a body that is the object
    [{error: message}] and nothing else. *)
Theorem handlers_answer_200_or_400 (query : gmap (list N) QueryValue) :
  answers_200_or_400 (dailySummary query)
  ∧ answers_200_or_400 (ordersTrend query)
  ∧ answers_200_or_400 (tierDistribution query).
Proof.
  unfold answers_200_or_400. setoid_rewrite <- error_body_is. split; [|split].
  - destruct (dailySummary_cases query) as [(s & _ & ->)|[_ ->]]; eexists; (split; [done|]);
      simpl; eauto.
  - destruct (ordersTrend_cases query) as [(f & t & i & _ & _ & _ & _ & ->)|[_ ->]];
      eexists; (split; [done|]); simpl; eauto.
  - destruct (tierDistribution_cases query) as [(s & _ & ->)|[_ ->]]; eexists; (split; [done|]);
      simpl; eauto.
Qed.

(** X11: the tier-distribution handler answers 400 with the body
    [{error: "Invalid query parameters"}] exactly when [date] is not a
    string that passes the date validator, and otherwise 200 with the
    body that carries the date it was given and the three stub tiers,
    STANDARD 950, GOLD 320 and PLATINUM 80. *)
Theorem tier_distribution_answer (query : gmap (list N) QueryValue) :
  ((¬ ∃ s, date_param query (lit "date") s) →
     tierDistribution query =
     Normal (mkResponse 400
               (JObj {[ lit "error" := JStr (lit "Invalid query parameters") ]})))
  ∧ (∀ s, date_param query (lit "date") s →
       tierDistribution query =
       Normal (mkResponse 200
                 (JObj (list_to_map
                          [(lit "date", JStr s);
                           (lit "tiers",
                            JArr [JObj (list_to_map
                                          [(lit "tier", JStr (lit "STANDARD"));
                                           (lit "customers", JNum (lit "950"))]);
                                  JObj (list_to_map
                                          [(lit "tier", JStr (lit "GOLD"));
                                           (lit "customers", JNum (lit "320"))]);
                                  JObj (list_to_map
                                          [(lit "tier", JStr (lit "PLATINUM"));
                                           (lit "customers", JNum (lit "80"))])])]))))
  ∧ (answered (tierDistribution query) = 400%Z
     ↔ ¬ ∃ s, date_param query (lit "date") s).
Proof.
  rewrite <- error_body_is.
  destruct (tierDistribution_cases query) as [(s & Hs & ->)|[Hno ->]];
    (split; [|split]).
  - intros []. eauto.
  - intros s' Hs'. rewrite <- tier_body_is. by rewrite (date_param_unique _ _ _ _ Hs Hs').
  - simpl. split; [discriminate|]. intros []. eauto.
  - done.
  - intros s Hs. destruct Hno. eauto.
  - done.
Qed.

Lemma tier_distribution_answer_witness :
  tierDistribution (qs [("date", QString (lit "2024-02-29"))])
  = Normal (mkResponse 200
              (JObj (list_to_map
                       [(lit "date", JStr (lit "2024-02-29"));
                        (lit "tiers",
                         JArr [JObj (list_to_map
                                       [(lit "tier", JStr (lit "STANDARD"));
                                        (lit "customers", JNum (lit "950"))]);
                               JObj (list_to_map
                                       [(lit "tier", JStr (lit "GOLD"));
                                        (lit "customers", JNum (lit "320"))]);
                               JObj (list_to_map
                                       [(lit "tier", JStr (lit "PLATINUM"));
                                        (lit "customers", JNum (lit "80"))])])])))
  ∧ tierDistribution (qs [("date", QString (lit "2023-02-29"))])
    = Normal (mkResponse 400
                (JObj {[ lit "error" := JStr (lit "Invalid query parameters") ]})).
Proof.
  destruct (tier_distribution_answer (qs [("date", QString (lit "2024-02-29"))]))
    as (_ & Hok & _).
  destruct (tier_distribution_answer (qs [("date", QString (lit "2023-02-29"))]))
    as (Hbad & _).
  split.
  - apply (Hok (lit "2024-02-29")). split; vm_compute; reflexivity.
  - apply Hbad. intros (s & Hq & Hs). vm_compute in Hq. injection Hq as <-.
    vm_compute in Hs. discriminate.
Defined.

(** ** The first revision of the daily summary *)



(** X14: the first revision and the current one give the same answer
    when [date] is a valid date string; the first revision echoes any
    string it is given, valid or not; and in every case that the
    current handler rejects with 400 the first revision answered
    200. *)
Theorem legacy_agrees_on_valid_dates (now : Z) (query : gmap (list N) QueryValue) :
  (∀ s, date_param query (lit "date") s →
     legacyDailySummary now query = dailySummary query)
  ∧ (∀ s, query !! lit "date" = Some (QString s) →
       legacyDailySummary now query = Normal (mkResponse 200 (daily_summary_body s)))
  ∧ ((¬ ∃ s, date_param query (lit "date") s) →
     answered (legacyDailySummary now query) = 200%Z
     ∧ answered (dailySummary query) = 400%Z).
Proof.
  split; [|split].
  - intros s Hs.
    destruct (dailySummary_cases query) as [(s' & Hs' & ->)|[Hno _]]; [|destruct Hno; eauto].
    unfold legacyDailySummary. destruct Hs' as [-> _]. reflexivity.
  - intros s Hs. unfold legacyDailySummary. rewrite Hs. reflexivity.
  - intros Hno. split.
    + unfold legacyDailySummary. destruct (query !! lit "date") as [[]|]; reflexivity.
    + destruct (dailySummary_cases query) as [(s' & Hs' & _)|[_ ->]]; [destruct Hno; eauto|done].
Qed.

Lemma legacy_agrees_on_valid_dates_witness :
  legacyDailySummary 0 (qs [("date", QString (lit "2023-03-15"))])
  = dailySummary (qs [("date", QString (lit "2023-03-15"))])
  ∧ legacyDailySummary 0 (qs [("date", QString (lit "2023-02-30"))])
    = Normal (mkResponse 200 (daily_summary_body (lit "2023-02-30")))
  ∧ answered (dailySummary (qs [("date", QString (lit "2023-02-30"))])) = 400%Z.
Proof.
  destruct (legacy_agrees_on_valid_dates 0 (qs [("date", QString (lit "2023-03-15"))]))
    as (Hsame & _).
  destruct (legacy_agrees_on_valid_dates 0 (qs [("date", QString (lit "2023-02-30"))]))
    as (_ & Hecho & Hbad).
  split; [|split].
  - apply (Hsame (lit "2023-03-15")). split; vm_compute; reflexivity.
  - apply Hecho. vm_compute. reflexivity.
  - apply Hbad. intros (s & Hq & Hs). vm_compute in Hq. injection Hq as <-.
    vm_compute in Hs. discriminate.
Defined.
